(** * A circuit breaker around a fallible operation

    Shallow embedding of [breaker.go] (package [go_circuit_breaker]) and the
    properties of its state machine.

    The breaker is a mutable struct that is shared between the callers of
    [Execute] and the goroutines started by [handleError].  The embedding
    threads one [machine] through every function: the breaker's fields, the
    state of the outside world the wrapped operation acts on, a trace of
    what was done to that world, and the pool of goroutines started so far. *)

From Stdlib Require Import ZArith Lia.
From stdpp Require Import base list strings relations.

Open Scope Z_scope.

(** ** Go's [int] and [time.Duration]

    Both are 64-bit two's complement integers on the platforms Go is usually
    built for; [++] and [*] wrap around silently. *)
Module GoInt.

Definition min_int : Z := - 2 ^ 63.
Definition max_int : Z := 2 ^ 63 - 1.

Definition in_range (z : Z) : Prop := min_int <= z <= max_int.

Definition wrap (z : Z) : Z := (z + 2 ^ 63) mod 2 ^ 64 - 2 ^ 63.

(** [x++] *)
Definition incr (x : Z) : Z := wrap (x + 1).

(** [x * y] *)
Definition mul (x y : Z) : Z := wrap (x * y).

End GoInt.

(** ** Data model *)

(** [type State int] with its three constants.  The type is an [int], so the
    [switch] of [Execute] has a fourth way out: a value that is none of the
    three. *)
Definition State : Type := Z.
Definition Closed : State := 1.
Definition HalfOpen : State := 2.
Definition Open : State := 3.

Definition defaultErrorThreshold : Z := 5.
Definition defaultRetryInterval : Z := 5.
Definition defaultRetryMax : Z := 5.

(** [time.Second], in nanoseconds. *)
Definition time_Second : Z := 1000000000.

Record Strategy : Type := mkStrategy {
  Threshold : Z;
  RetryInterval : Z;
  RetryMax : Z
}.

(** The struct holds a [*Strategy]; the breaker never writes through the
    pointer after construction, so the pointee is kept in the record. *)
Record circuitBreaker : Type := mkCircuitBreaker {
  name : string;
  strategy : Strategy;
  state : State;
  consecutiveErrors : Z
}.

(** A Go [error] built by [errors.New]: two of them are equal (for
    [assert.Equal]) when their messages are. *)
Inductive error : Type := errorString (s : string).

Definition errors_New (text : string) : error := errorString text.

Definition RecoveringError : error :=
  errors_New "circuit half open. trying to recover".

Definition CircuitOpenError (n : string) : error :=
  errors_New (n +:+ " circuit breaker open").

Definition set_state (s : State) (c : circuitBreaker) : circuitBreaker :=
  mkCircuitBreaker (name c) (strategy c) s (consecutiveErrors c).

Definition set_consecutiveErrors (n : Z) (c : circuitBreaker) : circuitBreaker :=
  mkCircuitBreaker (name c) (strategy c) (state c) n.

(** The breaker after [handleError]: the counter has gone through [++], and
    the state is [HalfOpen] when the counter is above the threshold. *)
Definition after_error (c : circuitBreaker) : circuitBreaker :=
  let n := GoInt.incr (consecutiveErrors c) in
  mkCircuitBreaker (name c) (strategy c)
    (if decide (n > Threshold (strategy c)) then HalfOpen else state c) n.

(** [NewCircuitBreaker]: the three defaults are written into the strategy the
    caller passed, and the breaker keeps that strategy. *)
Definition NewCircuitBreaker (nm : string) (s : Strategy) : circuitBreaker :=
  let s1 := if Threshold s <=? 0
            then mkStrategy defaultErrorThreshold (RetryInterval s) (RetryMax s)
            else s in
  let s2 := if RetryMax s1 <=? 0
            then mkStrategy (Threshold s1) (RetryInterval s1) defaultRetryMax
            else s1 in
  let s3 := if RetryInterval s2 <=? 0
            then mkStrategy (Threshold s2) defaultRetryInterval (RetryMax s2)
            else s2 in
  mkCircuitBreaker nm s3 Closed 0.

Definition GetName (c : circuitBreaker) : string := name c.
Definition GetState (c : circuitBreaker) : State := state c.

Section Breaker.

(** [V] is what an operation can return besides [nil] ([interface{}]); [W] is
    the state of whatever the operation talks to: a closure may give another
    answer each time it is invoked. *)
Context {V W : Type}.

(** How the outside world changes while the program sleeps for [d]
    nanoseconds. *)
Context (elapse : Z -> W -> W).

(** [(interface{}, error)] *)
Definition result : Type := option V * option error.

(** [func() (interface{}, error)] *)
Definition func : Type := W -> result * W.

Inductive event : Type :=
| EvCall (r : result)      (* the operation was invoked and returned [r] *)
| EvSleep (d : Z)          (* [time.Sleep d] *)
| EvPrint (s : string).    (* [fmt.Printf] wrote [s] *)

(** Where a [recover] goroutine stands, by the line of [breaker.go] it
    executes next. *)
Inductive label : Type :=
| L109                         (* for c.state == HalfOpen *)
| L111                         (* if retries > c.strategy.RetryMax *)
| L116                         (* time.Sleep *)
| L119                         (* _, err := f() *)
| L120 (err : option error)    (* if err == nil { c.state = Closed } *)
| L124                         (* retries++ *)
| Lend.                        (* returned *)

Record goroutine : Type := mkGoroutine {
  g_f : func;
  g_retries : Z;
  g_pc : label
}.

Record machine : Type := mkMachine {
  cb : circuitBreaker;
  world : W;
  trace : list event;
  goroutines : list goroutine
}.

(** *** The state monad the code runs in *)

Definition M (A : Type) : Type := machine -> A * machine.

#[export] Instance M_ret : MRet M := fun A a m => (a, m).
#[export] Instance M_bind : MBind M :=
  fun A B k c m => let '(a, m') := c m in k a m'.

Definition get_cb : M circuitBreaker := fun m => (cb m, m).

Definition modify_cb (u : circuitBreaker -> circuitBreaker) : M unit :=
  fun m => (tt, mkMachine (u (cb m)) (world m) (trace m) (goroutines m)).

(** [f()] *)
Definition call (f : func) : M result :=
  fun m => let '(r, w) := f (world m) in
           (r, mkMachine (cb m) w (trace m ++ [EvCall r]) (goroutines m)).

Definition fmt_Printf (s : string) : M unit :=
  fun m => (tt, mkMachine (cb m) (world m) (trace m ++ [EvPrint s]) (goroutines m)).

(** [time.Sleep]: returns at once for a duration that is not positive. *)
Definition time_Sleep (d : Z) : M unit :=
  fun m => (tt, mkMachine (cb m)
                  (if d <=? 0 then world m else elapse d (world m))
                  (trace m ++ [EvSleep d]) (goroutines m)).

(** [go c.recover(f)]: the goroutine is created, it has not run yet. *)
Definition go_recover (f : func) : M unit :=
  fun m => (tt, mkMachine (cb m) (world m) (trace m)
                  (goroutines m ++ [mkGoroutine f 0 L109])).

(** *** The methods of the breaker *)

Definition handleSuccess : M unit :=
  modify_cb (set_consecutiveErrors 0).

Definition handleError (f : func) : M unit :=
  modify_cb (fun c => set_consecutiveErrors (GoInt.incr (consecutiveErrors c)) c);;
  c ← get_cb;
  if Threshold (strategy c) <? consecutiveErrors c
  then modify_cb (set_state HalfOpen);; go_recover f
  else mret tt.

(** The [switch] of [Execute]: [Some r] when a case returned [r], [None] when
    control leaves the [switch] and reaches the [return f()] after it. *)
Definition Execute_switch (f : func) : M (option result) :=
  c ← get_cb;
  if state c =? Closed then
    r ← call f;
    match r.2 with
    | Some _ => handleError f;; mret (Some r)
    | None => handleSuccess;; mret None
    end
  else if state c =? HalfOpen then
    mret (Some (None, Some (errors_New "circuit half open. trying to recover")))
  else if state c =? Open then
    let message := name c +:+ " circuit breaker open" in
    fmt_Printf ("ALERT: " +:+ message);;
    mret (Some (None, Some (errors_New message)))
  else mret None.

Definition Execute (f : func) : M result :=
  r ← Execute_switch f;
  match r with
  | Some r => mret r
  | None => call f
  end.

(** *** [recover], run to its end without interruption

    [fuel] bounds the number of times the loop condition is evaluated;
    [None] means the bound was reached first. *)
Definition sleep_duration (c : circuitBreaker) : Z :=
  GoInt.mul time_Second (RetryInterval (strategy c)).

Fixpoint recover_loop (fuel : nat) (f : func) (retries : Z) (m : machine)
  : option machine :=
  match fuel with
  | O => None
  | S fuel =>
    if state (cb m) =? HalfOpen then
      if RetryMax (strategy (cb m)) <? retries then
        Some (modify_cb (set_state Open) m).2
      else
        let m1 := (time_Sleep (sleep_duration (cb m)) m).2 in
        let '(r, m2) := call f m1 in
        let m3 := match r.2 with
                  | None => (modify_cb (set_state Closed) m2).2
                  | Some _ => m2
                  end in
        recover_loop fuel f (GoInt.incr retries) m3
    else Some m
  end.

Definition recover (fuel : nat) (f : func) (m : machine) : option machine :=
  recover_loop fuel f 0 m.

(** The machine when the sleep of line 116 is over. *)
Definition slept (m : machine) : machine :=
  (time_Sleep (sleep_duration (cb m)) m).2.

(** The machine a full turn of the loop later, for a turn that goes through
    lines 116 to 124. *)
Definition probed (f : func) (m : machine) : machine :=
  let '(r, m2) := call f (slept m) in
  match r.2 with
  | None => (modify_cb (set_state Closed) m2).2
  | Some _ => m2
  end.

(** *** [recover], one line at a time

    The goroutine started by [handleError] runs next to the callers of
    [Execute]; between two of its lines anything else may happen to the
    breaker. *)
Definition at_label (l : label) (g : goroutine) : goroutine :=
  mkGoroutine (g_f g) (g_retries g) l.

Definition recover_step (g : goroutine) : M goroutine :=
  match g_pc g with
  | L109 =>
    c ← get_cb;
    mret (at_label (if state c =? HalfOpen then L111 else Lend) g)
  | L111 =>
    c ← get_cb;
    if RetryMax (strategy c) <? g_retries g
    then modify_cb (set_state Open);; mret (at_label Lend g)
    else mret (at_label L116 g)
  | L116 =>
    c ← get_cb;
    time_Sleep (sleep_duration c);; mret (at_label L119 g)
  | L119 =>
    r ← call (g_f g);
    mret (at_label (L120 r.2) g)
  | L120 err =>
    match err with
    | None => modify_cb (set_state Closed)
    | Some _ => mret tt
    end;;
    mret (at_label L124 g)
  | L124 => mret (mkGoroutine (g_f g) (GoInt.incr (g_retries g)) L109)
  | Lend => mret g
  end.

Fixpoint recover_steps (n : nat) (g : goroutine) (m : machine)
  : goroutine * machine :=
  match n with
  | O => (g, m)
  | S n => let '(g', m') := recover_step g m in recover_steps n g' m'
  end.

(** Goroutine number [i] executes its next line. *)
Definition schedule (i : nat) (g : goroutine) (m : machine) : machine :=
  let '(g', m') := recover_step g m in
  mkMachine (cb m') (world m') (trace m') (<[i:=g']> (goroutines m')).

(** The runs of the program in which no two calls of [Execute] overlap and
    no line of a probe falls inside a call: a call of [Execute] is one
    transition, a [recover] goroutine moves a line at a time.  These are
    some of the runs the program has, not all of them: see [line_step]
    below for calls that are in progress while something else runs. *)
Inductive step : machine -> machine -> Prop :=
| step_Execute (f : func) (m : machine) :
    step m (Execute f m).2
| step_recover (i : nat) (g : goroutine) (m : machine) :
    goroutines m !! i = Some g ->
    step m (schedule i g m).

(** The same program when nothing interleaves: a probe, once it runs, runs
    from its first line to its end. *)
Inductive seq_step : machine -> machine -> Prop :=
| seq_Execute (f : func) (m : machine) :
    seq_step m (Execute f m).2
| seq_recover (fuel : nat) (f : func) (m m' : machine) :
    recover fuel f m = Some m' ->
    seq_step m m'.

Inductive action : Type :=
| ACall (f : func)
| AGo (i : nat).

Definition perform (a : action) (m : machine) : option machine :=
  match a with
  | ACall f => Some (Execute f m).2
  | AGo i => g ← goroutines m !! i; Some (schedule i g m)
  end.

Fixpoint perform_all (l : list action) (m : machine) : option machine :=
  match l with
  | [] => Some m
  | a :: l => m' ← perform a m; perform_all l m'
  end.

(** *** [Execute], one line at a time

    [Execute] takes no lock: it reads [c.state] on line 76, runs the
    operation, and writes the counter and the state afterwards, while other
    calls and the probes go on.  A call in progress stands at a line of
    [breaker.go], with the values it holds in local variables; each line
    reads or writes the shared breaker at most once ([c.consecutiveErrors++]
    is a read and then a write). *)
Inductive elabel : Type :=
| E76                           (* switch c.state *)
| E78                           (* res, err := f(); if err != nil *)
| E100 (r : result)             (* c.consecutiveErrors++, the read *)
| E100w (r : result) (v : Z)    (* c.consecutiveErrors++, the write *)
| E101 (r : result)             (* if c.consecutiveErrors > c.strategy.Threshold *)
| E102 (r : result)             (* c.state = HalfOpen *)
| E103 (r : result)             (* go c.recover(f) *)
| E81 (r : result)              (* return res, err *)
| E96                           (* c.consecutiveErrors = 0 *)
| E86                           (* return nil, errors.New("circuit half open...") *)
| E88                           (* message := ...; fmt.Printf; return nil, errors.New(message) *)
| E92                           (* return f() *)
| Ereturn (r : result).         (* returned r *)

Record caller : Type := mkCaller {
  c_f : func;
  c_pc : elabel
}.

Definition at_line (l : elabel) (c : caller) : caller := mkCaller (c_f c) l.

Definition Execute_step (c : caller) : M caller :=
  match c_pc c with
  | E76 =>
    b ← get_cb;
    mret (at_line (if state b =? Closed then E78
                   else if state b =? HalfOpen then E86
                   else if state b =? Open then E88
                   else E92) c)
  | E78 =>
    r ← call (c_f c);
    mret (at_line (match r.2 with Some _ => E100 r | None => E96 end) c)
  | E100 r =>
    b ← get_cb;
    mret (at_line (E100w r (consecutiveErrors b)) c)
  | E100w r v =>
    modify_cb (set_consecutiveErrors (GoInt.incr v));;
    mret (at_line (E101 r) c)
  | E101 r =>
    b ← get_cb;
    mret (at_line (if Threshold (strategy b) <? consecutiveErrors b
                   then E102 r else E81 r) c)
  | E102 r =>
    modify_cb (set_state HalfOpen);; mret (at_line (E103 r) c)
  | E103 r =>
    go_recover (c_f c);; mret (at_line (E81 r) c)
  | E81 r => mret (at_line (Ereturn r) c)
  | E96 =>
    modify_cb (set_consecutiveErrors 0);; mret (at_line E92 c)
  | E86 =>
    mret (at_line
            (Ereturn (None,
                      Some (errors_New "circuit half open. trying to recover")))
            c)
  | E88 =>
    b ← get_cb;
    let message := name b +:+ " circuit breaker open" in
    fmt_Printf ("ALERT: " +:+ message);;
    mret (at_line (Ereturn (None, Some (errors_New message))) c)
  | E92 =>
    r ← call (c_f c);
    mret (at_line (Ereturn r) c)
  | Ereturn r => mret c
  end.

Fixpoint Execute_steps (n : nat) (c : caller) (m : machine)
  : caller * machine :=
  match n with
  | O => (c, m)
  | S n => let '(c', m') := Execute_step c m in Execute_steps n c' m'
  end.

(** The program with its calls in progress. *)
Record system : Type := mkSystem {
  mach : machine;
  callers : list caller
}.

(** Who moves: a new call of [Execute] comes in, call number [j] executes
    its next line, or probe number [i] does. *)
Inductive who : Type :=
| Enter (f : func)
| Caller (j : nat)
| Recover (i : nat).

Definition advance (j : nat) (c : caller) (s : system) : system :=
  let '(c', m') := Execute_step c (mach s) in
  mkSystem m' (<[j:=c']> (callers s)).

(** All the runs of the program, line by line. *)
Inductive line_step : who -> system -> system -> Prop :=
| line_Enter (f : func) (s : system) :
    line_step (Enter f) s
      (mkSystem (mach s) (callers s ++ [mkCaller f E76]))
| line_Caller (j : nat) (c : caller) (s : system) :
    callers s !! j = Some c ->
    line_step (Caller j) s (advance j c s)
| line_Recover (i : nat) (g : goroutine) (s : system) :
    goroutines (mach s) !! i = Some g ->
    line_step (Recover i) s (mkSystem (schedule i g (mach s)) (callers s)).

Definition lines (s s' : system) : Prop := exists a, line_step a s s'.

Definition play1 (a : who) (s : system) : option system :=
  match a with
  | Enter f => Some (mkSystem (mach s) (callers s ++ [mkCaller f E76]))
  | Caller j => c ← callers s !! j; Some (advance j c s)
  | Recover i =>
    g ← goroutines (mach s) !! i;
    Some (mkSystem (schedule i g (mach s)) (callers s))
  end.

Fixpoint play (l : list who) (s : system) : option system :=
  match l with
  | [] => Some s
  | a :: l => s' ← play1 a s; play l s'
  end.

(** *** Sequences of calls *)

(** The machine a program starts with: a new breaker, no goroutine. *)
Definition start (nm : string) (s : Strategy) (w : W) : machine :=
  mkMachine (NewCircuitBreaker nm s) w [] [].

Fixpoint Execute_seq (fs : list func) (m : machine) : machine :=
  match fs with
  | [] => m
  | f :: fs => Execute_seq fs (Execute f m).2
  end.

(** Whether [f], invoked in the world [w], returns an error. *)
Definition fails (f : func) (w : W) : bool :=
  match (f w).1.2 with
  | Some _ => true
  | None => false
  end.

Definition always_fails (f : func) : Prop := forall w, fails f w = true.

(** For each call of the sequence, whether the operation it was given fails
    when that call is made. *)
Fixpoint failures (fs : list func) (m : machine) : list bool :=
  match fs with
  | [] => []
  | f :: fs => fails f (world m) :: failures fs (Execute f m).2
  end.

(** Number of invocations of an operation recorded in a trace. *)
Fixpoint calls (t : list event) : nat :=
  match t with
  | [] => O
  | EvCall _ :: t => S (calls t)
  | _ :: t => calls t
  end.

(** *** The recovery probe as the specification words it

    1. attempts = 0.  2. While state is HalfOpen: (a) if attempts > retryMax,
    set state to Open and stop; (b) sleep for retryInterval (seconds);
    (c) invoke the operation once; (d) if it returns no error, set state to
    Closed; (e) increment attempts.  [attempts] is a mathematical integer
    here, and the sleep a mathematical number of nanoseconds. *)
Fixpoint spec_probe_loop (fuel : nat) (f : func) (attempts : Z) (m : machine)
  : option machine :=
  match fuel with
  | O => None
  | S fuel =>
    if decide (state (cb m) = HalfOpen) then
      if decide (attempts > RetryMax (strategy (cb m))) then
        Some (mkMachine (set_state Open (cb m)) (world m) (trace m) (goroutines m))
      else
        let d := time_Second * RetryInterval (strategy (cb m)) in
        let w1 := elapse d (world m) in
        let '(r, w2) := f w1 in
        let c := match r.2 with
                 | None => set_state Closed (cb m)
                 | Some _ => cb m
                 end in
        spec_probe_loop fuel f (attempts + 1)
          (mkMachine c w2 (trace m ++ [EvSleep d; EvCall r]) (goroutines m))
    else Some m
  end.

Definition spec_probe (fuel : nat) (f : func) (m : machine) : option machine :=
  spec_probe_loop fuel f 0 m.

(** *** Whole runs of the probe *)

(** The machine [k] turns of the loop later. *)
Fixpoint turns (k : nat) (f : func) (m : machine) : machine :=
  match k with
  | O => m
  | S k => turns k f (probed f m)
  end.

(** What a probe that sleeps [d] leaves in the trace when its invocations
    return [rs]. *)
Definition probe_trace (d : Z) (rs : list result) : list event :=
  flat_map (fun r => [EvSleep d; EvCall r]) rs.

(** Number of sleeps recorded in a trace. *)
Fixpoint sleeps (t : list event) : nat :=
  match t with
  | [] => O
  | EvSleep _ :: t => S (sleeps t)
  | _ :: t => sleeps t
  end.

(** The machine [m] with another pool of goroutines. *)
Definition with_goroutines (gs : list goroutine) (m : machine) : machine :=
  mkMachine (cb m) (world m) (trace m) gs.

(** A goroutine that is not in the middle of a turn of the loop: it is about
    to read the state, or it has returned. *)
Definition idle (g : goroutine) : Prop :=
  g_pc g = L109 \/ g_pc g = Lend.

(** A call that is not in the branch of [Execute] for state [Closed]: it
    has not read the state yet, it is in the branch for [HalfOpen] or for
    [Open], or it has returned. *)
Definition quiet (c : caller) : Prop :=
  match c_pc c with
  | E76 | E86 | E88 | Ereturn _ => True
  | _ => False
  end.

(** What holds of every system a program can be in. *)
Definition valid_state (st : State) : Prop :=
  st = Closed \/ st = HalfOpen \/ st = Open.

Definition lines_invariant (nm : string) (s : Strategy) (sy : system)
  : Prop :=
  name (cb (mach sy)) = nm
  /\ strategy (cb (mach sy)) = strategy (NewCircuitBreaker nm s)
  /\ valid_state (state (cb (mach sy)))
  /\ GoInt.in_range (consecutiveErrors (cb (mach sy)))
  /\ (state (cb (mach sy)) <> Closed ->
      goroutines (mach sy) <> []
      \/ exists j c r, callers sy !! j = Some c /\ c_pc c = E103 r).

End Breaker.

(** Whether a sequence of outcomes contains [n] failures in a row. *)
Definition has_failure_run (n : nat) (l : list bool) : Prop :=
  exists pre suf, l = pre ++ replicate n true ++ suf.

(** The same, computed: [failure_run_here] looks for the run at the head of
    the list, [failure_run] at every position. *)
Fixpoint failure_run_here (n : nat) (l : list bool) : bool :=
  match n with
  | O => true
  | S n => match l with
           | true :: l => failure_run_here n l
           | _ => false
           end
  end.

Fixpoint failure_run (n : nat) (l : list bool) : bool :=
  failure_run_here n l
  || match l with
     | [] => false
     | _ :: l => failure_run n l
     end.

(** ** Operations and breakers to run the code on

    The world is the number of invocations made so far; sleeping does not
    change it. *)
Module Fixtures.

Definition no_elapse (d : Z) (w : nat) : nat := w.

(** [errFunc] and [happyFunc] of the tests. *)
Definition errFunc : @func string nat :=
  fun w => ((None, Some (errors_New "i like to fail")), S w).

Definition happyFunc : @func string nat :=
  fun w => ((Some "yay", None), S w).

(** Succeeds the first time it is invoked and fails ever after. *)
Definition onceFunc : @func string nat :=
  fun w => match w with
           | O => ((Some "yay", None), S w)
           | S _ => ((None, Some (errors_New "boom")), S w)
           end.

(** Succeeds on its third and on its sixth invocation only. *)
Definition thirdFunc : @func string nat :=
  fun w => if (w =? 2)%nat || (w =? 5)%nat
           then ((Some "yay", None), S w)
           else ((None, Some (errors_New "i like to fail")), S w).

Definition testStrategy : Strategy := mkStrategy 2 1 5.

(** [testFunc] of the last test: the world is a clock, in nanoseconds, and
    the operation fails until more than three seconds have gone by. *)
Definition clock_elapse (d : Z) (now : Z) : Z := now + d.

Definition testFunc : @func string Z :=
  fun now => if 3 * time_Second <? now
             then ((Some "yay", None), now)
             else ((None, Some (errors_New "i like to fail")), now).

Definition machine_in (st : State) (errs : Z) : @machine string nat :=
  mkMachine (mkCircuitBreaker "test" testStrategy st errs) O [] [].

(** Two probes at once.  Three calls fail, the third one after the first
    probe (goroutine 0) has closed the breaker and before that probe looks
    at the state again; the second probe (goroutine 1) goes to sleep; the
    first one fails once more, gives up and opens the breaker; the second
    one wakes up and invokes the operation, which succeeds. *)
Definition raceStrategy : Strategy := mkStrategy 1 1 1.

Definition raceSchedule : list (@action string nat) :=
  [ACall thirdFunc; ACall thirdFunc;
   AGo 0; AGo 0; AGo 0; AGo 0; AGo 0; AGo 0;
   ACall thirdFunc;
   AGo 0; AGo 0;
   AGo 1; AGo 1; AGo 1;
   AGo 0; AGo 0; AGo 0; AGo 0;
   AGo 0; AGo 0;
   AGo 1]%nat.

(** The machine that schedule leads to. *)
Definition raceMachine : @machine string nat :=
  mkMachine (mkCircuitBreaker "test" raceStrategy Open 3) 6%nat
    [EvCall (None, Some (errors_New "i like to fail"));
     EvCall (None, Some (errors_New "i like to fail"));
     EvSleep 1000000000; EvCall (Some "yay", None);
     EvCall (None, Some (errors_New "i like to fail"));
     EvSleep 1000000000; EvSleep 1000000000;
     EvCall (None, Some (errors_New "i like to fail"));
     EvCall (Some "yay", None)]
    [mkGoroutine thirdFunc 2 Lend; mkGoroutine thirdFunc 0 (L120 None)].

(** A breaker that is never to give up probing, and one that is never to
    trip. *)
Definition foreverStrategy : Strategy := mkStrategy 2 1 GoInt.max_int.

Definition neverStrategy : Strategy := mkStrategy GoInt.max_int 1 5.

(** A retry interval whose product with [time.Second] does not fit 64
    bits. *)
Definition longSleepStrategy : Strategy := mkStrategy 2 9223372037 5.

(** Two calls that overlap.  After a first failing call, a failing call
    (number 1) and a successful one (number 2) both read the state while it
    is [Closed]; call 1 goes as far as line 102 and sets [HalfOpen]; call 2
    then resets the counter on line 96. *)
Definition overlapSchedule : list (@who string nat) :=
  [Enter errFunc;
   Caller 0; Caller 0; Caller 0; Caller 0; Caller 0; Caller 0;
   Enter errFunc; Enter happyFunc;
   Caller 1; Caller 2;
   Caller 1; Caller 1; Caller 1; Caller 1; Caller 1;
   Caller 2; Caller 2]%nat.

(** An open breaker, a probe about to read the state, a call about to read
    it; then another call comes in and all of them run. *)
Definition restingSystem : @system string nat :=
  mkSystem
    (mkMachine (mkCircuitBreaker "test" testStrategy Open 3) O []
       [mkGoroutine happyFunc 6 L109])
    [mkCaller happyFunc E76].

Definition restingSchedule : list (@who string nat) :=
  [Caller 0; Recover 0; Enter errFunc; Caller 1; Caller 0; Caller 1;
   Recover 0]%nat.

End Fixtures.

(** * Properties *)

(** ** Integer arithmetic *)

Lemma wrap_in_range z : GoInt.in_range z -> GoInt.wrap z = z.
Proof.
  unfold GoInt.in_range, GoInt.wrap, GoInt.min_int, GoInt.max_int. intros Hz.
  rewrite Z.mod_small by lia. lia.
Qed.

Lemma incr_below_max x :
  GoInt.min_int <= x < GoInt.max_int -> GoInt.incr x = x + 1.
Proof.
  unfold GoInt.incr. intros Hx. apply wrap_in_range.
  unfold GoInt.in_range, GoInt.min_int, GoInt.max_int in *. lia.
Qed.

Lemma incr_at_max : GoInt.incr GoInt.max_int = GoInt.min_int.
Proof. reflexivity. Qed.

Lemma sleep_duration_seconds c :
  0 < RetryInterval (strategy c) <= 9223372036 ->
  sleep_duration c = time_Second * RetryInterval (strategy c)
  /\ 0 < sleep_duration c.
Proof.
  intros Hr. unfold sleep_duration, GoInt.mul, time_Second.
  rewrite wrap_in_range;
    unfold GoInt.in_range, GoInt.min_int, GoInt.max_int; lia.
Qed.

(** ** Construction *)

Ltac unfold_M :=
  cbv [mbind mret M_bind M_ret get_cb modify_cb call fmt_Printf time_Sleep
       go_recover handleSuccess handleError Execute Execute_switch].

Lemma NewCircuitBreaker_fields (nm : string) (s : Strategy) :
  NewCircuitBreaker nm s
  = mkCircuitBreaker nm
      (mkStrategy (if decide (Threshold s <= 0) then 5 else Threshold s)
                  (if decide (RetryInterval s <= 0) then 5 else RetryInterval s)
                  (if decide (RetryMax s <= 0) then 5 else RetryMax s))
      Closed 0.
Proof.
  destruct s as [t i r]. unfold NewCircuitBreaker.
  cbn [Threshold RetryInterval RetryMax].
  destruct (Z.leb_spec t 0); cbn [Threshold RetryInterval RetryMax];
    destruct (Z.leb_spec r 0); cbn [Threshold RetryInterval RetryMax];
    destruct (Z.leb_spec i 0); cbn [Threshold RetryInterval RetryMax];
    repeat case_decide; try lia; reflexivity.
Qed.

Lemma NewCircuitBreaker_positive (nm : string) (s : Strategy) :
  0 < Threshold (strategy (NewCircuitBreaker nm s))
  /\ 0 < RetryInterval (strategy (NewCircuitBreaker nm s))
  /\ 0 < RetryMax (strategy (NewCircuitBreaker nm s)).
Proof.
  rewrite NewCircuitBreaker_fields. simpl.
  repeat case_decide; lia.
Qed.

(** C8.  [NewCircuitBreaker name strategy] is a breaker called [name], in
    state [Closed], with no consecutive error counted; each of the three
    fields of its strategy is the default 5 where the given one is zero or
    negative, and the given one where it is positive. *)
Theorem C8_NewCircuitBreaker_defaults (nm : string) (s : Strategy) :
  let c := NewCircuitBreaker nm s in
  GetName c = nm
  /\ GetState c = Closed
  /\ consecutiveErrors c = 0
  /\ Threshold (strategy c) = (if decide (Threshold s <= 0) then 5 else Threshold s)
  /\ RetryInterval (strategy c)
     = (if decide (RetryInterval s <= 0) then 5 else RetryInterval s)
  /\ RetryMax (strategy c) = (if decide (RetryMax s <= 0) then 5 else RetryMax s).
Proof.
  intros c. subst c. rewrite NewCircuitBreaker_fields.
  repeat split; reflexivity.
Qed.

(** ** Traces *)

Lemma calls_app {V : Type} (t1 t2 : list (@event V)) :
  calls (t1 ++ t2) = (calls t1 + calls t2)%nat.
Proof.
  induction t1 as [|e t1 IH]; [reflexivity |].
  destruct e; simpl; rewrite IH; reflexivity.
Qed.

(** ** [Execute], branch by branch *)

Section ExecuteLemmas.

Context {V W : Type}.
Implicit Types (f : @func V W) (m : @machine V W).

Lemma Execute_HalfOpen f m :
  state (cb m) = HalfOpen ->
  Execute f m = ((None, Some RecoveringError), m).
Proof.
  intros Hs. unfold_M. rewrite Hs. reflexivity.
Qed.

Lemma Execute_Open f m :
  state (cb m) = Open ->
  Execute f m
  = ((None, Some (CircuitOpenError (name (cb m)))),
     mkMachine (cb m) (world m)
       (trace m ++ [EvPrint ("ALERT: " +:+ name (cb m) +:+ " circuit breaker open")])
       (goroutines m)).
Proof.
  intros Hs. unfold_M. rewrite Hs. reflexivity.
Qed.

Lemma Execute_Closed_failure f m res e w :
  state (cb m) = Closed ->
  f (world m) = ((res, Some e), w) ->
  Execute f m
  = ((res, Some e),
     mkMachine (after_error (cb m)) w (trace m ++ [EvCall (res, Some e)])
       (if decide (GoInt.incr (consecutiveErrors (cb m)) > Threshold (strategy (cb m)))
        then goroutines m ++ [mkGoroutine f 0 L109]
        else goroutines m)).
Proof.
  intros Hs Hf. unfold_M. rewrite Hs. cbn [Z.eqb Closed Pos.eqb].
  rewrite Hf. cbn -[GoInt.incr]. unfold after_error.
  destruct (Z.ltb_spec (Threshold (strategy (cb m)))
              (GoInt.incr (consecutiveErrors (cb m))));
    case_decide; try lia; cbn -[GoInt.incr];
    unfold set_consecutiveErrors, set_state; cbn -[GoInt.incr];
    rewrite ?Hs; reflexivity.
Qed.

Lemma Execute_Closed_success f m res w1 r2 w2 :
  state (cb m) = Closed ->
  f (world m) = ((res, None), w1) ->
  f w1 = (r2, w2) ->
  Execute f m
  = (r2,
     mkMachine (set_consecutiveErrors 0 (cb m)) w2
       (trace m ++ [EvCall (res, None); EvCall r2]) (goroutines m)).
Proof.
  intros Hs Hf1 Hf2. unfold_M. rewrite Hs. cbn [Z.eqb Closed Pos.eqb].
  rewrite Hf1. cbn. rewrite Hf2. rewrite <- app_assoc. reflexivity.
Qed.

End ExecuteLemmas.

(** ** What [Execute] does in each state *)

(** C4.  In state [HalfOpen], [Execute f] returns a nil result and the error
    "circuit half open. trying to recover", and leaves the machine as it
    was: [f] is not invoked. *)
Theorem C4_Execute_HalfOpen {V W : Type} (f : @func V W) (m : @machine V W) :
  state (cb m) = HalfOpen ->
  (Execute f m).1 = (None, Some (errors_New "circuit half open. trying to recover"))
  /\ (Execute f m).2 = m
  /\ calls (trace (Execute f m).2) = calls (trace m).
Proof.
  intros Hs. rewrite (Execute_HalfOpen f m Hs). repeat split.
Qed.

Lemma C4_Execute_HalfOpen_witness :
  let m := Fixtures.machine_in HalfOpen 3 in
  state (cb m) = HalfOpen
  /\ (Execute Fixtures.errFunc m).1
     = (None, Some (errors_New "circuit half open. trying to recover"))
  /\ (Execute Fixtures.errFunc m).2 = m
  /\ calls (trace (Execute Fixtures.errFunc m).2) = calls (trace m).
Proof.
  split; [reflexivity |].
  apply (C4_Execute_HalfOpen Fixtures.errFunc (Fixtures.machine_in HalfOpen 3)).
  reflexivity.
Defined.

(** C5.  In state [Open], [Execute f] returns a nil result and the error
    "<name> circuit breaker open"; it prints that message after "ALERT: ",
    and does nothing else: [f] is not invoked, the world and the breaker
    are as they were. *)
Theorem C5_Execute_Open {V W : Type} (f : @func V W) (m : @machine V W) :
  state (cb m) = Open ->
  let message := name (cb m) +:+ " circuit breaker open" in
  (Execute f m).1 = (None, Some (errors_New message))
  /\ trace (Execute f m).2 = trace m ++ [EvPrint ("ALERT: " +:+ message)]
  /\ calls (trace (Execute f m).2) = calls (trace m)
  /\ world (Execute f m).2 = world m
  /\ cb (Execute f m).2 = cb m
  /\ goroutines (Execute f m).2 = goroutines m.
Proof.
  intros Hs message. rewrite (Execute_Open f m Hs). cbn [fst snd trace world cb goroutines].
  repeat split. rewrite calls_app. simpl. lia.
Qed.

Lemma C5_Execute_Open_witness :
  let m := Fixtures.machine_in Open 3 in
  state (cb m) = Open
  /\ (Execute Fixtures.errFunc m).1
     = (None, Some (errors_New "test circuit breaker open"))
  /\ trace (Execute Fixtures.errFunc m).2
     = [EvPrint "ALERT: test circuit breaker open"].
Proof.
  split; [reflexivity |].
  pose proof (C5_Execute_Open Fixtures.errFunc (Fixtures.machine_in Open 3)
                eq_refl) as (Hres & Htrace & _).
  split; [exact Hres | exact Htrace].
Defined.

(** C10.  In state [HalfOpen] or [Open], [Execute f] leaves every field of
    the breaker as it was, and the result it returns is nil. *)
Theorem C10_Execute_not_Closed_frame {V W : Type}
    (f : @func V W) (m : @machine V W) :
  state (cb m) = HalfOpen \/ state (cb m) = Open ->
  cb (Execute f m).2 = cb m
  /\ state (cb (Execute f m).2) = state (cb m)
  /\ consecutiveErrors (cb (Execute f m).2) = consecutiveErrors (cb m)
  /\ name (cb (Execute f m).2) = name (cb m)
  /\ strategy (cb (Execute f m).2) = strategy (cb m)
  /\ (Execute f m).1.1 = None.
Proof.
  intros [Hs | Hs].
  - rewrite (Execute_HalfOpen f m Hs). repeat split.
  - rewrite (Execute_Open f m Hs). repeat split.
Qed.

Lemma C10_Execute_not_Closed_frame_witness :
  let m := Fixtures.machine_in Open 3 in
  cb (Execute Fixtures.happyFunc m).2 = cb m
  /\ (Execute Fixtures.happyFunc m).1.1 = None.
Proof.
  pose proof (C10_Execute_not_Closed_frame Fixtures.happyFunc
                (Fixtures.machine_in Open 3) (or_intror eq_refl))
    as (Hcb & _ & _ & _ & _ & Hres).
  split; [exact Hcb | exact Hres].
Defined.

(** C3.  In state [Closed], when the invocation of [f] fails, [Execute f]
    invokes [f] that once, applies [++] to [consecutiveErrors] (one more,
    unless the counter was the largest [int]), and returns the result and
    the error of the invocation as they are.  When the counter is then above
    the threshold, the state becomes [HalfOpen] and a [recover] goroutine is
    started for [f]; when it is not, the state stays [Closed] and nothing is
    started. *)
Theorem C3_Execute_Closed_failure {V W : Type}
    (f : @func V W) (m : @machine V W) :
  state (cb m) = Closed ->
  fails f (world m) = true ->
  let r := (f (world m)).1 in
  let m' := (Execute f m).2 in
  let n := GoInt.incr (consecutiveErrors (cb m)) in
  (Execute f m).1 = r
  /\ consecutiveErrors (cb m') = n
  /\ (GoInt.min_int <= consecutiveErrors (cb m) < GoInt.max_int ->
      consecutiveErrors (cb m') = consecutiveErrors (cb m) + 1)
  /\ trace m' = trace m ++ [EvCall r]
  /\ world m' = (f (world m)).2
  /\ name (cb m') = name (cb m)
  /\ strategy (cb m') = strategy (cb m)
  /\ (if decide (n > Threshold (strategy (cb m)))
      then state (cb m') = HalfOpen
           /\ goroutines m' = goroutines m ++ [mkGoroutine f 0 L109]
      else state (cb m') = Closed
           /\ goroutines m' = goroutines m).
Proof.
  intros Hs Hfail r m' n. subst r m' n. unfold fails in Hfail.
  destruct (f (world m)) as [[res [e|]] w] eqn:Hf; [| discriminate].
  rewrite (Execute_Closed_failure f m res e w Hs Hf).
  cbn [fst snd cb world trace goroutines after_error
       name strategy state consecutiveErrors].
  repeat split.
  - intros Hr. apply incr_below_max. exact Hr.
  - case_decide; split; try reflexivity. exact Hs.
Qed.

Lemma C3_Execute_Closed_failure_witness :
  let m := Fixtures.machine_in Closed 2 in
  (Execute Fixtures.errFunc m).1 = (None, Some (errors_New "i like to fail"))
  /\ consecutiveErrors (cb (Execute Fixtures.errFunc m).2) = 3
  /\ state (cb (Execute Fixtures.errFunc m).2) = HalfOpen
  /\ goroutines (Execute Fixtures.errFunc m).2
     = [mkGoroutine Fixtures.errFunc 0 L109].
Proof.
  pose proof (C3_Execute_Closed_failure Fixtures.errFunc
                (Fixtures.machine_in Closed 2) eq_refl eq_refl)
    as (Hres & Hn & _ & _ & _ & _ & _ & Hst).
  split; [exact Hres |]. split; [exact Hn |]. exact Hst.
Defined.

(** C1.  A closed breaker is given an operation that succeeds the first time
    it is invoked and fails the second time.  [Execute] resets the counter,
    and then invokes the operation again and returns what that second
    invocation returned: an error. *)
Theorem C1_Execute_Closed_success_invokes_twice :
  let m := Fixtures.machine_in Closed 1 in
  state (cb m) = Closed
  /\ (Fixtures.onceFunc (world m)).1 = (Some "yay", None)
  /\ Execute Fixtures.onceFunc m
     = ((None, Some (errors_New "boom")),
        mkMachine (mkCircuitBreaker "test" Fixtures.testStrategy Closed 0) 2%nat
          [EvCall (Some "yay", None); EvCall (None, Some (errors_New "boom"))]
          []).
Proof. repeat split. Qed.

(** ** The tests of the repository, run on the model *)

Example TestWhenThresholdExceededStateIsHalfOpenError :
  let m := Execute_seq [Fixtures.errFunc; Fixtures.errFunc; Fixtures.errFunc]
             (start "test" (mkStrategy 2 0 0) O) in
  (Execute Fixtures.errFunc m).1.2
  = Some (errors_New "circuit half open. trying to recover").
Proof. reflexivity. Qed.

Example TestWhenErrorsAreNotConsecutiveRemainClosed :
  let m := Execute_seq [Fixtures.errFunc; Fixtures.happyFunc; Fixtures.errFunc]
             (start "test" (mkStrategy 2 0 0) O) in
  (Execute Fixtures.happyFunc m).1.2 = None
  /\ GetState (cb (Execute Fixtures.happyFunc m).2) = Closed.
Proof. split; reflexivity. Qed.

Example TestWhenRecoverFailsStateIsOpen :
  let m := Execute_seq [Fixtures.errFunc; Fixtures.errFunc; Fixtures.errFunc]
             (start "test" Fixtures.testStrategy O) in
  (Execute Fixtures.errFunc m).1.2
  = Some (errors_New "circuit half open. trying to recover")
  /\ GetState (cb (Execute Fixtures.errFunc m).2) = HalfOpen
  /\ exists m',
       recover Fixtures.no_elapse 7 Fixtures.errFunc
         (Execute Fixtures.errFunc m).2 = Some m'
       /\ GetState (cb m') = Open
       /\ (Execute Fixtures.errFunc m').1.2
          = Some (errors_New "test circuit breaker open").
Proof.
  split; [reflexivity |]. split; [reflexivity |].
  eexists. split; [vm_compute; reflexivity |]. split; vm_compute; reflexivity.
Qed.

Example TestWhenRecoverSucceedsStateIsClosed :
  let m := Execute_seq [Fixtures.testFunc; Fixtures.testFunc; Fixtures.testFunc]
             (start "test" Fixtures.testStrategy 0) in
  (Execute Fixtures.testFunc m).1.2
  = Some (errors_New "circuit half open. trying to recover")
  /\ GetState (cb (Execute Fixtures.testFunc m).2) = HalfOpen
  /\ exists m',
       recover Fixtures.clock_elapse 7 Fixtures.testFunc
         (Execute Fixtures.testFunc m).2 = Some m'
       /\ GetState (cb m') = Closed
       /\ (Execute Fixtures.testFunc m').1 = (Some "yay", None).
Proof.
  split; [reflexivity |]. split; [reflexivity |].
  eexists. split; [vm_compute; reflexivity |]. split; vm_compute; reflexivity.
Qed.

(** ** Sequences of calls *)

Section Sequences.

Context {V W : Type}.
Implicit Types (f : @func V W) (m : @machine V W) (fs : list (@func V W)).

Lemma Execute_seq_app fs gs m :
  Execute_seq (fs ++ gs) m = Execute_seq gs (Execute_seq fs m).
Proof.
  revert m. induction fs as [|f fs IH]; intros m; [reflexivity |].
  simpl. apply IH.
Qed.

Lemma failures_app fs gs m :
  failures (fs ++ gs) m = failures fs m ++ failures gs (Execute_seq fs m).
Proof.
  revert m. induction fs as [|f fs IH]; intros m; [reflexivity |].
  simpl. rewrite IH. reflexivity.
Qed.

Lemma failures_length fs m : length (failures fs m) = length fs.
Proof.
  revert m. induction fs as [|f fs IH]; intros m; [reflexivity |].
  simpl. rewrite IH. reflexivity.
Qed.

(** A failing call made in state [Closed] with the counter below the
    threshold. *)
Lemma Execute_failure_below f m :
  state (cb m) = Closed ->
  fails f (world m) = true ->
  GoInt.min_int <= consecutiveErrors (cb m) < Threshold (strategy (cb m)) ->
  Threshold (strategy (cb m)) <= GoInt.max_int ->
  cb (Execute f m).2
  = set_consecutiveErrors (consecutiveErrors (cb m) + 1) (cb m)
  /\ goroutines (Execute f m).2 = goroutines m.
Proof.
  intros Hs Hfail Hc HT. unfold fails in Hfail.
  destruct (f (world m)) as [[res [e|]] w] eqn:Hf; [| discriminate].
  rewrite (Execute_Closed_failure f m res e w Hs Hf).
  cbn [snd cb goroutines]. unfold after_error.
  rewrite incr_below_max by lia.
  case_decide; [lia |]. split; reflexivity.
Qed.

(** A failing call made in state [Closed] with the counter at the
    threshold. *)
Lemma Execute_failure_at f m :
  state (cb m) = Closed ->
  fails f (world m) = true ->
  consecutiveErrors (cb m) = Threshold (strategy (cb m)) ->
  GoInt.min_int <= Threshold (strategy (cb m)) < GoInt.max_int ->
  (Execute f m).1 = (f (world m)).1
  /\ cb (Execute f m).2
     = set_state HalfOpen
         (set_consecutiveErrors (consecutiveErrors (cb m) + 1) (cb m))
  /\ goroutines (Execute f m).2 = goroutines m ++ [mkGoroutine f 0 L109].
Proof.
  intros Hs Hfail Hc HT. unfold fails in Hfail.
  destruct (f (world m)) as [[res [e|]] w] eqn:Hf; [| discriminate].
  rewrite (Execute_Closed_failure f m res e w Hs Hf).
  cbn [fst snd cb goroutines]. unfold after_error.
  rewrite incr_below_max by lia.
  case_decide; [| lia]. repeat split.
Qed.

(** A successful (first) invocation in state [Closed]. *)
Lemma Execute_success_cb f m :
  state (cb m) = Closed ->
  fails f (world m) = false ->
  cb (Execute f m).2 = set_consecutiveErrors 0 (cb m)
  /\ goroutines (Execute f m).2 = goroutines m.
Proof.
  intros Hs Hfail. unfold fails in Hfail.
  destruct (f (world m)) as [[res [e|]] w1] eqn:Hf1; [discriminate |].
  destruct (f w1) as [r2 w2] eqn:Hf2.
  rewrite (Execute_Closed_success f m res w1 r2 w2 Hs Hf1 Hf2).
  split; reflexivity.
Qed.

(** A run of failing calls that stays at or below the threshold only
    counts. *)
Lemma Execute_seq_failures fs : forall m,
  state (cb m) = Closed ->
  failures fs m = replicate (length fs) true ->
  GoInt.min_int <= consecutiveErrors (cb m) ->
  consecutiveErrors (cb m) + Z.of_nat (length fs) <= Threshold (strategy (cb m)) ->
  Threshold (strategy (cb m)) <= GoInt.max_int ->
  cb (Execute_seq fs m)
  = set_consecutiveErrors (consecutiveErrors (cb m) + Z.of_nat (length fs)) (cb m)
  /\ goroutines (Execute_seq fs m) = goroutines m.
Proof.
  induction fs as [|f fs IH]; intros m Hs Hfl Hlo Hhi HT.
  - simpl. rewrite Z.add_0_r. destruct (cb m); split; reflexivity.
  - simpl in Hfl. injection Hfl as Hf Hfl.
    cbn [length] in Hhi. rewrite Nat2Z.inj_succ in Hhi.
    destruct (Execute_failure_below f m Hs Hf ltac:(lia) HT) as [Hcb Hgo].
    cbn [Execute_seq].
    destruct (IH (Execute f m).2) as [Hcb' Hgo'].
    + rewrite Hcb. exact Hs.
    + exact Hfl.
    + rewrite Hcb. simpl. lia.
    + rewrite Hcb. simpl. lia.
    + rewrite Hcb. exact HT.
    + rewrite Hcb', Hgo', Hcb, Hgo. split; [| reflexivity].
      unfold set_consecutiveErrors. cbn [length]. simpl.
      f_equal. lia.
Qed.

End Sequences.

Section Runs.

Context {V W : Type}.
Implicit Types (f : @func V W) (m : @machine V W) (fs : list (@func V W)).

Lemma failures_run_split fs gs m :
  failures (fs ++ gs) m = replicate (length fs + length gs) true ->
  failures fs m = replicate (length fs) true
  /\ failures gs (Execute_seq fs m) = replicate (length gs) true.
Proof.
  rewrite failures_app, replicate_add. intros H.
  apply app_inj_1 in H; [exact H |].
  rewrite failures_length, length_replicate. reflexivity.
Qed.

Lemma failures_run_take k fs m :
  failures fs m = replicate (length fs) true ->
  failures (take k fs) m = replicate (length (take k fs)) true.
Proof.
  intros H. rewrite <- (take_drop k fs) in H. rewrite length_app in H.
  apply failures_run_split in H. apply H.
Qed.

Lemma has_failure_run_prefix n (l l' : list bool) :
  has_failure_run n l -> has_failure_run n (l ++ l').
Proof.
  intros (pre & suf & ->). exists pre, (suf ++ l').
  rewrite <- !app_assoc. reflexivity.
Qed.

Lemma failures_take k fs m :
  failures fs m
  = failures (take k fs) m ++ failures (drop k fs) (Execute_seq (take k fs) m).
Proof. rewrite <- failures_app, take_drop. reflexivity. Qed.

(** While no run of failures is longer than the threshold, the breaker is
    [Closed] and its counter is the length of the run of failures it has
    just seen. *)
Lemma Closed_invariant T fs : forall m (pre : list bool),
  state (cb m) = Closed ->
  Threshold (strategy (cb m)) = T ->
  0 <= consecutiveErrors (cb m) <= T ->
  T <= GoInt.max_int ->
  ~ has_failure_run (S (Z.to_nat T))
      (pre ++ replicate (Z.to_nat (consecutiveErrors (cb m))) true ++ failures fs m) ->
  state (cb (Execute_seq fs m)) = Closed
  /\ goroutines (Execute_seq fs m) = goroutines m.
Proof.
  induction fs as [|f fs IH]; intros m pre Hs HT Hc Hmax Hrun.
  - split; [exact Hs | reflexivity].
  - cbn [Execute_seq failures] in *.
    destruct (fails f (world m)) eqn:Hfail.
    + assert (consecutiveErrors (cb m) < T) as Hlt.
      { destruct (Z.eq_dec (consecutiveErrors (cb m)) T) as [Heq | Hne]; [| lia].
        exfalso. apply Hrun. exists pre, (failures fs (Execute f m).2).
        rewrite Heq. rewrite replicate_S_end, <- app_assoc. reflexivity. }
      destruct (Execute_failure_below f m Hs Hfail) as [Hcb Hgo].
      { unfold GoInt.min_int. lia. }
      { lia. }
      destruct (IH (Execute f m).2 pre) as [Hs' Hgo'].
      * rewrite Hcb. exact Hs.
      * rewrite Hcb. exact HT.
      * rewrite Hcb. simpl. lia.
      * exact Hmax.
      * rewrite Hcb. cbn [consecutiveErrors set_consecutiveErrors].
        replace (Z.to_nat (consecutiveErrors (cb m) + 1))
          with (S (Z.to_nat (consecutiveErrors (cb m)))) by lia.
        rewrite replicate_S_end, <- app_assoc. exact Hrun.
      * split; [exact Hs' | congruence].
    + destruct (Execute_success_cb f m Hs Hfail) as [Hcb Hgo].
      destruct (IH (Execute f m).2
                  (pre ++ replicate (Z.to_nat (consecutiveErrors (cb m))) true
                       ++ [false])) as [Hs' Hgo'].
      * rewrite Hcb. exact Hs.
      * rewrite Hcb. exact HT.
      * rewrite Hcb. simpl. lia.
      * exact Hmax.
      * rewrite Hcb. cbn [consecutiveErrors set_consecutiveErrors].
        change (Z.to_nat 0) with O. cbn [replicate app].
        rewrite <- !app_assoc. exact Hrun.
      * split; [exact Hs' | congruence].
Qed.

End Runs.

(** ** Tripping the breaker *)

(** C2 (as amended).  From a new breaker with threshold [T], let [T + 1]
    calls follow one another, the operation of each failing when the call is
    made.  After each of the first [T] calls the state is [Closed] and the
    counter is the number of calls made.  The call number [T + 1] takes the
    state to [HalfOpen] and starts the probe, and it returns what its
    operation returned, error included.  Any call made next, in state
    [HalfOpen], returns [RecoveringError] and changes nothing. *)
Theorem C2_trip_after_threshold {V W : Type}
    (nm : string) (s : Strategy) (fs : list (@func V W)) (f : @func V W) (w : W) :
  let m0 := start nm s w in
  let T := Threshold (strategy (cb m0)) in
  T < GoInt.max_int ->
  Z.of_nat (length fs) = T ->
  failures (fs ++ [f]) m0 = replicate (length fs + 1) true ->
  let m1 := Execute_seq fs m0 in
  let m2 := (Execute f m1).2 in
  (forall k, (k <= length fs)%nat ->
     state (cb (Execute_seq (take k fs) m0)) = Closed
     /\ consecutiveErrors (cb (Execute_seq (take k fs) m0)) = Z.of_nat k)
  /\ state (cb m2) = HalfOpen
  /\ (Execute f m1).1 = (f (world m1)).1
  /\ (Execute f m1).1.2 <> None
  /\ goroutines m2 = [mkGoroutine f 0 L109]
  /\ (forall g, (Execute g m2).1 = (None, Some RecoveringError)
                /\ (Execute g m2).2 = m2).
Proof.
  intros m0 T Hmax Hlen Hfl m1 m2.
  destruct (NewCircuitBreaker_positive nm s) as (HTpos & _ & _).
  change (0 < T) in HTpos.
  destruct (failures_run_split fs [f] m0 Hfl) as [Hfs Hf].
  cbn in Hf. injection Hf as Hf. fold m1 in Hf.
  assert (Hprefix : forall k, (k <= length fs)%nat ->
            cb (Execute_seq (take k fs) m0)
            = set_consecutiveErrors (Z.of_nat k) (cb m0)
            /\ goroutines (Execute_seq (take k fs) m0) = []).
  { intros k Hk.
    assert (length (take k fs) = k) as Hlk by (rewrite length_take; lia).
    destruct (Execute_seq_failures (take k fs) m0) as [Hcb Hgo].
    - reflexivity.
    - apply failures_run_take. exact Hfs.
    - unfold GoInt.min_int. simpl. lia.
    - rewrite Hlk. change (consecutiveErrors (cb m0)) with 0.
      change (Threshold (strategy (cb m0))) with T. lia.
    - change (Threshold (strategy (cb m0))) with T. lia.
    - rewrite Hcb, Hgo, Hlk. split; reflexivity. }
  destruct (Hprefix (length fs) (le_n _)) as [Hcb1 Hgo1].
  rewrite firstn_all in Hcb1, Hgo1. fold m1 in Hcb1, Hgo1.
  destruct (Execute_failure_at f m1) as (Hres & Hcb2 & Hgo2).
  { rewrite Hcb1. reflexivity. }
  { exact Hf. }
  { rewrite Hcb1. cbn [consecutiveErrors set_consecutiveErrors strategy].
    exact Hlen. }
  { rewrite Hcb1. cbn [strategy set_consecutiveErrors].
    change (Threshold (strategy (cb m0))) with T.
    unfold GoInt.min_int. lia. }
  fold m2 in Hcb2, Hgo2.
  assert (state (cb m2) = HalfOpen) as Hs2 by (rewrite Hcb2; reflexivity).
  split; [| split; [| split; [| split; [| split]]]].
  - intros k Hk. destruct (Hprefix k Hk) as [Hcb _]. rewrite Hcb.
    split; reflexivity.
  - exact Hs2.
  - exact Hres.
  - rewrite Hres. unfold fails in Hf.
    destruct ((f (world m1)).1.2); [discriminate | discriminate].
  - rewrite Hgo2, Hgo1. reflexivity.
  - intros g. rewrite (Execute_HalfOpen g m2 Hs2). split; reflexivity.
Qed.

Lemma failure_run_here_spec n : forall l,
  failure_run_here n l = true <-> exists suf, l = replicate n true ++ suf.
Proof.
  induction n as [|n IH]; intros l; simpl.
  - split; [intros _; exists l; reflexivity | reflexivity].
  - destruct l as [|[] l].
    + split; [discriminate | intros (suf & H); discriminate].
    + rewrite IH. split; intros (suf & H); exists suf; congruence.
    + split; [discriminate | intros (suf & H); discriminate].
Qed.

Lemma failure_run_spec n l :
  has_failure_run n l <-> failure_run n l = true.
Proof.
  split.
  - intros (pre & suf & ->). induction pre as [|a pre IH].
    + assert (failure_run_here n (replicate n true ++ suf) = true) as H
        by (apply failure_run_here_spec; eexists; reflexivity).
      cbn [app] in *. destruct (replicate n true ++ suf);
        cbn [failure_run]; rewrite H; reflexivity.
    + cbn [app failure_run]. rewrite IH. apply orb_true_r.
  - induction l as [|a l IH]; cbn [failure_run]; intros H.
    + rewrite orb_false_r in H. apply failure_run_here_spec in H as (suf & H).
      exists [], suf. exact H.
    + apply orb_true_iff in H as [H | H].
      * apply failure_run_here_spec in H as (suf & H). exists [], suf. exact H.
      * destruct (IH H) as (pre & suf & ->). exists (a :: pre), suf. reflexivity.
Qed.

Lemma C2_trip_after_threshold_witness :
  let m1 := Execute_seq [Fixtures.errFunc; Fixtures.errFunc]
              (start "test" Fixtures.testStrategy O) in
  state (cb m1) = Closed
  /\ state (cb (Execute Fixtures.errFunc m1).2) = HalfOpen
  /\ (Execute Fixtures.errFunc m1).1 = (None, Some (errors_New "i like to fail"))
  /\ (Execute Fixtures.errFunc (Execute Fixtures.errFunc m1).2).1
     = (None, Some RecoveringError).
Proof.
  pose proof (C2_trip_after_threshold "test" Fixtures.testStrategy
                [Fixtures.errFunc; Fixtures.errFunc] Fixtures.errFunc O
                eq_refl eq_refl eq_refl)
    as (Hpre & Hs & Hres & _ & _ & Hnext).
  split; [exact (proj1 (Hpre 2%nat (le_n 2))) |].
  split; [exact Hs |]. split; [exact Hres |].
  exact (proj1 (Hnext Fixtures.errFunc)).
Defined.

(** C2 as the specification words it fails: with threshold 2, the third
    failing call takes the state to [HalfOpen], and the error it returns is
    the one of the operation, not [RecoveringError]. *)
Lemma C2_counterexample :
  ~ (forall (nm : string) (s : Strategy)
            (fs : list (@func string nat)) (f : @func string nat) (w : nat),
       let m0 := start nm s w in
       Z.of_nat (length fs) = Threshold (strategy (cb m0)) ->
       failures (fs ++ [f]) m0 = replicate (length fs + 1) true ->
       state (cb (Execute f (Execute_seq fs m0)).2) = HalfOpen
       /\ (Execute f (Execute_seq fs m0)).1.2 = Some RecoveringError).
Proof.
  intros H.
  destruct (H "test" Fixtures.testStrategy
              [Fixtures.errFunc; Fixtures.errFunc] Fixtures.errFunc O
              eq_refl eq_refl) as [_ Herr].
  vm_compute in Herr. discriminate Herr.
Qed.

(** C7.  From a new breaker with threshold [T], along any sequence of calls
    in which no [T + 1] operations in a row fail, the state is [Closed]
    after every call and no probe is ever started; a call whose operation
    succeeds leaves the counter at 0. *)
Theorem C7_no_long_run_stays_Closed {V W : Type}
    (nm : string) (s : Strategy) (fs : list (@func V W)) (w : W) :
  let m0 := start nm s w in
  let T := Threshold (strategy (cb m0)) in
  T <= GoInt.max_int ->
  ~ has_failure_run (Z.to_nat (T + 1)) (failures fs m0) ->
  forall k,
    state (cb (Execute_seq (take k fs) m0)) = Closed
    /\ goroutines (Execute_seq (take k fs) m0) = []
    /\ (forall f, fs !! k = Some f ->
          fails f (world (Execute_seq (take k fs) m0)) = false ->
          consecutiveErrors (cb (Execute_seq (take (S k) fs) m0)) = 0).
Proof.
  intros m0 T Hmax Hrun k.
  destruct (NewCircuitBreaker_positive nm s) as (HTpos & _ & _).
  change (0 < T) in HTpos.
  replace (Z.to_nat (T + 1)) with (S (Z.to_nat T)) in Hrun by lia.
  destruct (Closed_invariant T (take k fs) m0 []) as [Hs Hgo].
  - reflexivity.
  - reflexivity.
  - change (consecutiveErrors (cb m0)) with 0. lia.
  - exact Hmax.
  - change (consecutiveErrors (cb m0)) with 0. change (Z.to_nat 0) with O.
    cbn [replicate app]. intros Hk. apply Hrun.
    rewrite (failures_take k fs m0). apply has_failure_run_prefix. exact Hk.
  - split; [exact Hs |]. split; [exact Hgo |].
    intros f Hf Hok. rewrite (take_S_r fs k f Hf), Execute_seq_app.
    cbn [Execute_seq].
    destruct (Execute_success_cb f _ Hs Hok) as [Hcb _].
    rewrite Hcb. reflexivity.
Qed.

Lemma C7_no_long_run_stays_Closed_witness :
  let fs := [Fixtures.errFunc; Fixtures.happyFunc;
             Fixtures.errFunc; Fixtures.happyFunc] in
  let m0 := start "test" Fixtures.testStrategy O in
  failure_run 3 (failures fs m0) = false
  /\ state (cb (Execute_seq fs m0)) = Closed.
Proof.
  split; [reflexivity |].
  refine (proj1 (C7_no_long_run_stays_Closed "test" Fixtures.testStrategy
                   [Fixtures.errFunc; Fixtures.happyFunc;
                    Fixtures.errFunc; Fixtures.happyFunc] O _ _ 4%nat)).
  - discriminate.
  - intros Hrun. apply failure_run_spec in Hrun. discriminate Hrun.
Defined.

(** ** The recovery probe, run on its own *)

Section Probe.

Context {V W : Type} (elapse : Z -> W -> W).
Implicit Types (f : @func V W) (m : @machine V W).

Lemma recover_loop_not_HalfOpen n f retries m :
  state (cb m) <> HalfOpen ->
  recover_loop elapse (S n) f retries m = Some m.
Proof.
  intros Hs. cbn [recover_loop].
  destruct (Z.eqb_spec (state (cb m)) HalfOpen); [contradiction | reflexivity].
Qed.

Lemma recover_loop_exhausted n f retries m :
  state (cb m) = HalfOpen ->
  retries > RetryMax (strategy (cb m)) ->
  recover_loop elapse (S n) f retries m
  = Some (mkMachine (set_state Open (cb m)) (world m) (trace m) (goroutines m)).
Proof.
  intros Hs Hr. cbn [recover_loop]. rewrite Hs. cbn [Z.eqb HalfOpen Pos.eqb].
  destruct (Z.ltb_spec (RetryMax (strategy (cb m))) retries); [reflexivity | lia].
Qed.

Lemma recover_loop_turn n f retries m :
  state (cb m) = HalfOpen ->
  retries <= RetryMax (strategy (cb m)) ->
  recover_loop elapse (S n) f retries m
  = recover_loop elapse n f (GoInt.incr retries) (probed elapse f m).
Proof.
  intros Hs Hr. cbn [recover_loop]. rewrite Hs. cbn [Z.eqb HalfOpen Pos.eqb].
  destruct (Z.ltb_spec (RetryMax (strategy (cb m))) retries); [lia |].
  unfold probed, slept.
  destruct (call f (time_Sleep elapse (sleep_duration (cb m)) m).2) as [r m2].
  reflexivity.
Qed.

(** What a turn of the loop leaves behind. *)
Lemma probed_fields f m :
  name (cb (probed elapse f m)) = name (cb m)
  /\ strategy (cb (probed elapse f m)) = strategy (cb m)
  /\ consecutiveErrors (cb (probed elapse f m)) = consecutiveErrors (cb m)
  /\ goroutines (probed elapse f m) = goroutines m
  /\ calls (trace (probed elapse f m)) = S (calls (trace m))
  /\ state (cb (probed elapse f m))
     = (if fails f (world (slept elapse m)) then state (cb m) else Closed).
Proof.
  unfold probed, fails, call.
  destruct (f (world (slept elapse m))) as [[res [e|]] w2];
    cbn; rewrite !calls_app; cbn; repeat split; lia.
Qed.

Lemma probed_cb_failure f m :
  fails f (world (slept elapse m)) = true ->
  cb (probed elapse f m) = cb m.
Proof.
  unfold probed, fails, call.
  destruct (f (world (slept elapse m))) as [[res [e|]] w2];
    [reflexivity | discriminate].
Qed.

Lemma probed_cb_success f m :
  fails f (world (slept elapse m)) = false ->
  cb (probed elapse f m) = set_state Closed (cb m).
Proof.
  unfold probed, fails, call.
  destruct (f (world (slept elapse m))) as [[res [e|]] w2];
    [discriminate | reflexivity].
Qed.

End Probe.

Section ProbeRuns.

Context {V W : Type} (elapse : Z -> W -> W).
Implicit Types (f : @func V W) (m : @machine V W).

(** The probe comes to an end within [RetryMax + 2] evaluations of its loop
    condition, whatever the operation does. *)
Lemma recover_loop_terminates f (R : Z) : forall k retries m,
  RetryMax (strategy (cb m)) = R ->
  R < GoInt.max_int ->
  GoInt.min_int <= retries ->
  state (cb m) = HalfOpen ->
  (1 <= k)%nat ->
  R + 2 - retries <= Z.of_nat k ->
  exists m',
    recover_loop elapse k f retries m = Some m'
    /\ (state (cb m') = Closed \/ state (cb m') = Open)
    /\ name (cb m') = name (cb m)
    /\ strategy (cb m') = strategy (cb m)
    /\ consecutiveErrors (cb m') = consecutiveErrors (cb m)
    /\ goroutines m' = goroutines m.
Proof.
  induction k as [|k IH]; intros retries m HR Hmax Hlo Hs Hk Hfuel; [lia |].
  destruct (Z.lt_ge_cases R retries) as [Hgt | Hle].
  - rewrite recover_loop_exhausted by (rewrite ?HR; lia || exact Hs).
    eexists. split; [reflexivity |]. cbn. repeat split. right. reflexivity.
  - rewrite recover_loop_turn by (rewrite ?HR; lia || exact Hs).
    destruct (probed_fields elapse f m) as (Hn & Hst & Hc & Hg & _ & Hstate).
    rewrite incr_below_max by lia.
    destruct (fails f (world (slept elapse m))) eqn:Hfail.
    + destruct (IH (retries + 1) (probed elapse f m)) as (m' & Hrun & Hfin & Hn' & Hst' & Hc' & Hg');
        try lia.
      * rewrite Hst. exact HR.
      * exists m'. split; [exact Hrun |]. split; [exact Hfin |].
        repeat split; congruence.
    + destruct k as [|k]; [lia |].
      rewrite recover_loop_not_HalfOpen by (rewrite Hstate; discriminate).
      eexists. split; [reflexivity |]. split; [left; exact Hstate |].
      repeat split; assumption.
Qed.

(** An operation that fails whenever it is invoked is invoked once for each
    value of [retries] from the current one to [RetryMax], and then the
    state is [Open]. *)
Lemma recover_loop_always_fails f (R : Z) :
  always_fails f ->
  forall k retries m,
  RetryMax (strategy (cb m)) = R ->
  R < GoInt.max_int ->
  GoInt.min_int <= retries <= R + 1 ->
  state (cb m) = HalfOpen ->
  R + 2 - retries <= Z.of_nat k ->
  exists m',
    recover_loop elapse k f retries m = Some m'
    /\ cb m' = set_state Open (cb m)
    /\ goroutines m' = goroutines m
    /\ Z.of_nat (calls (trace m'))
       = Z.of_nat (calls (trace m)) + (R + 1 - retries).
Proof.
  intros Hf. induction k as [|k IH]; intros retries m HR Hmax Hr Hs Hfuel; [lia |].
  destruct (Z.lt_ge_cases R retries) as [Hgt | Hle].
  - rewrite recover_loop_exhausted by (rewrite ?HR; lia || exact Hs).
    eexists. split; [reflexivity |]. cbn. repeat split. lia.
  - rewrite recover_loop_turn by (rewrite ?HR; lia || exact Hs).
    rewrite incr_below_max by lia.
    pose proof (probed_cb_failure elapse f m (Hf _)) as Hcb.
    destruct (probed_fields elapse f m) as (_ & _ & _ & Hg & Hcalls & _).
    destruct (IH (retries + 1) (probed elapse f m)) as (m' & Hrun & Hcb' & Hg' & Hn);
      try lia.
    + rewrite Hcb. exact HR.
    + rewrite Hcb. exact Hs.
    + exists m'. split; [exact Hrun |].
      split; [congruence |]. split; [congruence |]. lia.
Qed.

(** The loop of the code and the loop of the specification compute the same
    thing as long as neither [retries++] nor the product of line 116
    overflows. *)
Lemma recover_loop_spec f : forall n retries m,
  RetryMax (strategy (cb m)) < GoInt.max_int ->
  0 < RetryInterval (strategy (cb m)) <= 9223372036 ->
  GoInt.min_int <= retries ->
  recover_loop elapse n f retries m = spec_probe_loop elapse n f retries m.
Proof.
  induction n as [|n IH]; intros retries m Hmax Hint Hlo; [reflexivity |].
  cbn [recover_loop spec_probe_loop].
  destruct (Z.eqb_spec (state (cb m)) HalfOpen) as [Hs | Hs];
    case_decide; try contradiction; [| reflexivity].
  destruct (Z.ltb_spec (RetryMax (strategy (cb m))) retries);
    case_decide; try lia; [reflexivity |].
  destruct (sleep_duration_seconds (cb m) Hint) as [Hd Hpos].
  unfold call, time_Sleep. cbn [snd world cb trace goroutines].
  destruct (Z.leb_spec (sleep_duration (cb m)) 0); [lia |].
  rewrite Hd.
  destruct (f (elapse (time_Second * RetryInterval (strategy (cb m))) (world m)))
    as [r w2].
  rewrite incr_below_max by lia.
  rewrite <- app_assoc. cbn [app].
  destruct r as [res [e|]]; cbn [snd]; apply IH; cbn; lia || assumption.
Qed.

End ProbeRuns.

(** C6 (as amended).  The probe of a breaker in state [HalfOpen], run without
    interruption, with [RetryMax] a non-negative [int] below the largest:
    - it computes what the loop of the specification computes, provided
      [RetryInterval] is a positive number of seconds that fits a duration;
    - it ends within [RetryMax + 2] evaluations of its condition, in state
      [Closed] or [Open], and leaves the other fields of the breaker alone;
    - a turn that finds [retries] above [RetryMax] sets the state to [Open]
      and ends the probe, without invoking the operation;
    - an operation that fails whenever it is invoked is invoked exactly
      [RetryMax + 1] times, and the state is then [Open];
    - a turn in which the operation returns no error sets the state to
      [Closed], and the probe ends there, one invocation later. *)
Theorem C6_recover_probe {V W : Type} (elapse : Z -> W -> W)
    (f : @func V W) (m : @machine V W) :
  state (cb m) = HalfOpen ->
  0 <= RetryMax (strategy (cb m)) < GoInt.max_int ->
  let R := RetryMax (strategy (cb m)) in
  (0 < RetryInterval (strategy (cb m)) <= 9223372036 ->
   forall n, recover elapse n f m = spec_probe elapse n f m)
  /\ (exists m',
        recover elapse (Z.to_nat (R + 2)) f m = Some m'
        /\ (state (cb m') = Closed \/ state (cb m') = Open)
        /\ name (cb m') = name (cb m)
        /\ strategy (cb m') = strategy (cb m)
        /\ consecutiveErrors (cb m') = consecutiveErrors (cb m))
  /\ (forall n retries m1,
        state (cb m1) = HalfOpen ->
        retries > RetryMax (strategy (cb m1)) ->
        recover_loop elapse (S n) f retries m1
        = Some (mkMachine (set_state Open (cb m1)) (world m1) (trace m1)
                  (goroutines m1)))
  /\ (always_fails f ->
      exists m',
        recover elapse (Z.to_nat (R + 2)) f m = Some m'
        /\ cb m' = set_state Open (cb m)
        /\ Z.of_nat (calls (trace m')) = Z.of_nat (calls (trace m)) + (R + 1))
  /\ (forall n retries m1,
        state (cb m1) = HalfOpen ->
        retries <= RetryMax (strategy (cb m1)) ->
        fails f (world (slept elapse m1)) = false ->
        exists m',
          recover_loop elapse (S (S n)) f retries m1 = Some m'
          /\ cb m' = set_state Closed (cb m1)
          /\ calls (trace m') = S (calls (trace m1))).
Proof.
  intros Hs HR R.
  assert (GoInt.min_int <= 0) as H0 by (unfold GoInt.min_int; lia).
  split; [| split; [| split; [| split]]].
  - intros Hint n. apply recover_loop_spec; lia || assumption.
  - destruct (recover_loop_terminates elapse f R (Z.to_nat (R + 2)) 0 m)
      as (m' & Hrun & Hfin & Hn & Hst & Hc & _);
      try (lia || reflexivity || exact Hs).
    exists m'. repeat split; assumption.
  - intros n retries m1 Hs1 Hr. apply recover_loop_exhausted; assumption.
  - intros Hf.
    destruct (recover_loop_always_fails elapse f R Hf (Z.to_nat (R + 2)) 0 m)
      as (m' & Hrun & Hcb & _ & Hn);
      try (lia || reflexivity || exact Hs).
    exists m'. split; [exact Hrun |]. split; [exact Hcb |]. lia.
  - intros n retries m1 Hs1 Hr Hok.
    rewrite recover_loop_turn by assumption.
    destruct (probed_fields elapse f m1) as (_ & _ & _ & _ & Hcalls & Hstate).
    rewrite Hok in Hstate.
    rewrite recover_loop_not_HalfOpen by (rewrite Hstate; discriminate).
    eexists. split; [reflexivity |].
    split; [apply probed_cb_success; exact Hok | exact Hcalls].
Qed.

Lemma C6_recover_probe_witness :
  let m := Fixtures.machine_in HalfOpen 3 in
  exists m',
    recover Fixtures.no_elapse 7 Fixtures.errFunc m = Some m'
    /\ cb m' = set_state Open (cb m)
    /\ Z.of_nat (calls (trace m')) = 6.
Proof.
  refine (proj1 (proj2 (proj2 (proj2
    (C6_recover_probe Fixtures.no_elapse Fixtures.errFunc
       (Fixtures.machine_in HalfOpen 3) eq_refl _)))) _).
  - split; [discriminate | reflexivity].
  - intros w. reflexivity.
Defined.

(** ** The probe among the callers *)

Section Interleaving.

Context {V W : Type} (elapse : Z -> W -> W).
Implicit Types (f : @func V W) (m : @machine V W) (g : @goroutine V W).

Ltac probe_steps :=
  cbv [recover_steps recover_step mbind mret M_bind M_ret get_cb modify_cb
       call time_Sleep at_label g_pc g_f g_retries fst snd];
  cbn [cb world trace goroutines].

Lemma recover_steps_add a b g m :
  recover_steps elapse (a + b) g m
  = let '(g', m') := recover_steps elapse a g m in recover_steps elapse b g' m'.
Proof.
  revert g m. induction a as [|a IH]; intros g m; [reflexivity |].
  cbn [Nat.add recover_steps].
  destruct (recover_step elapse g m) as [g' m']. apply IH.
Qed.

(** Six lines make a turn of the loop. *)
Lemma recover_steps_turn f retries m :
  state (cb m) = HalfOpen ->
  retries <= RetryMax (strategy (cb m)) ->
  recover_steps elapse 6 (mkGoroutine f retries L109) m
  = (mkGoroutine f (GoInt.incr retries) L109, probed elapse f m).
Proof.
  intros Hs Hr. unfold probed, slept.
  probe_steps. rewrite Hs. change (HalfOpen =? HalfOpen) with true.
  probe_steps.
  destruct (Z.ltb_spec (RetryMax (strategy (cb m))) retries); [lia |].
  probe_steps.
  destruct (f _) as [[res [e|]] w2]; reflexivity.
Qed.

(** The loop run at once is one of the ways to run it line by line. *)
Lemma recover_loop_steps f : forall n retries m m',
  recover_loop elapse n f retries m = Some m' ->
  exists k retries',
    recover_steps elapse k (mkGoroutine f retries L109) m
    = (mkGoroutine f retries' Lend, m').
Proof.
  induction n as [|n IH]; intros retries m m' Hrun; [discriminate |].
  destruct (Z.eq_dec (state (cb m)) HalfOpen) as [Hs | Hs].
  - destruct (Z.lt_ge_cases (RetryMax (strategy (cb m))) retries) as [Hgt | Hle].
    + rewrite recover_loop_exhausted in Hrun by (lia || exact Hs).
      injection Hrun as <-. exists 2%nat, retries.
      probe_steps. rewrite Hs. change (HalfOpen =? HalfOpen) with true.
      probe_steps.
      destruct (Z.ltb_spec (RetryMax (strategy (cb m))) retries); [reflexivity | lia].
    + rewrite recover_loop_turn in Hrun by assumption.
      destruct (IH _ _ _ Hrun) as (k & retries' & Hsteps).
      exists (6 + k)%nat, retries'.
      rewrite recover_steps_add, recover_steps_turn by assumption.
      exact Hsteps.
  - rewrite recover_loop_not_HalfOpen in Hrun by exact Hs.
    injection Hrun as <-. exists 1%nat, retries.
    probe_steps.
    destruct (Z.eqb_spec (state (cb m)) HalfOpen); [contradiction | reflexivity].
Qed.

(** Every line of [recover] but the assignment of line 121 leaves an open
    breaker open. *)
Lemma recover_step_Open g m :
  state (cb m) = Open ->
  g_pc g <> L120 None ->
  state (cb (recover_step elapse g m).2) = Open.
Proof.
  intros Hs Hpc. unfold recover_step.
  destruct (g_pc g) as [| | | | [e|] | |]; try contradiction; unfold_M;
    try exact Hs.
  - destruct (RetryMax (strategy (cb m)) <? g_retries g); [reflexivity | exact Hs].
  - destruct (g_f g (world m)) as [r w]. exact Hs.
Qed.

Lemma schedule_cb i g m :
  cb (schedule elapse i g m) = cb (recover_step elapse g m).2.
Proof.
  unfold schedule. destruct (recover_step elapse g m) as [g' m']. reflexivity.
Qed.

Lemma recover_Open fuel f retries m :
  state (cb m) = Open ->
  recover_loop elapse (S fuel) f retries m = Some m.
Proof.
  intros Hs. apply recover_loop_not_HalfOpen. rewrite Hs. discriminate.
Qed.

Lemma seq_step_Open m m' :
  state (cb m) = Open ->
  seq_step elapse m m' ->
  state (cb m') = Open.
Proof.
  intros Hs Hstep. destruct Hstep as [f m | fuel f m m' Hrun].
  - rewrite (Execute_Open f m Hs). exact Hs.
  - destruct fuel as [|fuel]; [discriminate |].
    unfold recover in Hrun. rewrite (recover_Open fuel f 0 m Hs) in Hrun.
    injection Hrun as <-. exact Hs.
Qed.

Lemma perform_all_steps (l : list (@action V W)) : forall m m',
  perform_all elapse l m = Some m' ->
  rtc (step elapse) m m'.
Proof.
  induction l as [|a l IH]; intros m m' Hrun.
  - injection Hrun as <-. apply rtc_refl.
  - cbn [perform_all] in Hrun.
    destruct (perform elapse a m) as [m1|] eqn:Ha; [| discriminate].
    cbn in Hrun. apply rtc_l with m1; [| apply IH; exact Hrun].
    destruct a as [f | i]; cbn in Ha.
    + injection Ha as <-. constructor.
    + destruct (goroutines m !! i) as [g|] eqn:Hg; [| discriminate].
      cbn in Ha. injection Ha as <-. constructor. exact Hg.
Qed.

End Interleaving.

(** ** Calls in progress *)

Section Lines.

Context {V W : Type} (elapse : Z -> W -> W).
Implicit Types (f : @func V W) (m : @machine V W) (c : @caller V W)
  (sy : @system V W).

(** What a line of [Execute] can write: the state, on line 102 only, and
    then [HalfOpen]; the counter, on lines 100 and 96; the pool of
    goroutines, on line 103.  Never the name nor the strategy. *)
Lemma Execute_step_frame c m :
  name (cb (Execute_step c m).2) = name (cb m)
  /\ strategy (cb (Execute_step c m).2) = strategy (cb m)
  /\ (state (cb (Execute_step c m).2) = state (cb m)
      \/ exists r, c_pc c = E102 r
                   /\ state (cb (Execute_step c m).2) = HalfOpen)
  /\ (consecutiveErrors (cb (Execute_step c m).2) = consecutiveErrors (cb m)
      \/ (exists r v, c_pc c = E100w r v
                      /\ consecutiveErrors (cb (Execute_step c m).2)
                         = GoInt.incr v)
      \/ (c_pc c = E96 /\ consecutiveErrors (cb (Execute_step c m).2) = 0))
  /\ (goroutines (Execute_step c m).2 = goroutines m
      \/ exists r, c_pc c = E103 r
                   /\ goroutines (Execute_step c m).2
                      = goroutines m ++ [mkGoroutine (c_f c) 0 L109]).
Proof.
  unfold Execute_step.
  destruct (c_pc c) as [| |r|r v|r|r|r|r| | | | |r]; unfold_M; cbn;
    try (destruct (c_f c (world m)) as [r' w']; cbn);
    repeat split; eauto 7.
Qed.

Lemma advance_mach j c sy :
  mach (advance j c sy) = (Execute_step c (mach sy)).2.
Proof.
  unfold advance. destruct (Execute_step c (mach sy)). reflexivity.
Qed.

Lemma advance_callers j c sy :
  callers (advance j c sy) = <[j:=(Execute_step c (mach sy)).1]> (callers sy).
Proof.
  unfold advance. destruct (Execute_step c (mach sy)). reflexivity.
Qed.

(** The lines that take an open breaker out of [Open]. *)
Lemma line_step_Open a sy sy' :
  state (cb (mach sy)) = Open ->
  line_step elapse a sy sy' ->
  state (cb (mach sy')) = Open
  \/ (exists i g, a = Recover i
                  /\ goroutines (mach sy) !! i = Some g
                  /\ g_pc g = L120 None)
  \/ (exists j c r, a = Caller j
                    /\ callers sy !! j = Some c
                    /\ c_pc c = E102 r).
Proof.
  intros Hs Hstep. destruct Hstep as [f sy | j c sy Hj | i g sy Hi].
  - left. exact Hs.
  - rewrite advance_mach.
    destruct (Execute_step_frame c (mach sy)) as (_ & _ & [Hst | (r & Hpc & _)] & _).
    + left. rewrite Hst. exact Hs.
    + right. right. exists j, c, r. auto.
  - cbn [mach]. rewrite schedule_cb.
    destruct (g_pc g) as [| | | | [e|] | |] eqn:Hpc;
      try (left; apply recover_step_Open; [exact Hs | rewrite Hpc; discriminate]).
    right. left. exists i, g. auto.
Qed.

End Lines.

(** C9 (as amended).  From a machine whose breaker is [Open]:
    - a call of [Execute] made there, with nothing else running meanwhile,
      leaves the state [Open];
    - so does every line of a [recover] goroutine other than the
      assignment of line 121;
    - a probe that starts, or that evaluates its loop condition, ends at
      once and changes nothing;
    - so when calls and probes follow one another, each probe running from
      its first line to its end, the state is [Open] for ever;
    - whatever calls are in progress, the only lines of the program that
      change the state are the assignment of line 121 by a probe that
      stands there with a nil error, which sets [Closed], and the
      assignment of line 102 by a call that stands there, which sets
      [HalfOpen]. *)
Theorem C9_Open_stays_Open {V W : Type} (elapse : Z -> W -> W)
    (m : @machine V W) :
  state (cb m) = Open ->
  (forall f, state (cb (Execute f m).2) = Open)
  /\ (forall i g,
        goroutines m !! i = Some g ->
        g_pc g <> L120 None ->
        state (cb (schedule elapse i g m)) = Open)
  /\ (forall fuel f retries, recover_loop elapse (S fuel) f retries m = Some m)
  /\ (forall m', rtc (seq_step elapse) m m' -> state (cb m') = Open)
  /\ (forall a cs sy',
        line_step elapse a (mkSystem m cs) sy' ->
        state (cb (mach sy')) = Open
        \/ (exists i g, a = Recover i
                        /\ goroutines m !! i = Some g
                        /\ g_pc g = L120 None
                        /\ state (cb (mach sy')) = Closed)
        \/ (exists j c r, a = Caller j
                          /\ cs !! j = Some c
                          /\ c_pc c = E102 r
                          /\ state (cb (mach sy')) = HalfOpen)).
Proof.
  intros Hs. split; [| split; [| split; [| split]]].
  - intros f. rewrite (Execute_Open f m Hs). exact Hs.
  - intros i g _ Hpc. rewrite schedule_cb. apply recover_step_Open; assumption.
  - intros fuel f retries. apply recover_Open. exact Hs.
  - intros m' Hrtc. induction Hrtc as [m | m m1 m2 Hstep _ IH]; [exact Hs |].
    apply IH. exact (seq_step_Open elapse m m1 Hs Hstep).
  - intros a cs sy' Hstep.
    destruct (line_step_Open elapse a (mkSystem m cs) sy' Hs Hstep)
      as [Hopen | [(i & g & -> & Hi & Hpc) | (j & c & r & -> & Hj & Hpc)]].
    + left. exact Hopen.
    + right. left. exists i, g. repeat split; try assumption.
      inversion Hstep as [| | i' g' sy0 Hi' Ha H0 Hsy']; subst.
      cbn [mach] in *. rewrite Hi in Hi'. injection Hi' as <-.
      rewrite schedule_cb. unfold recover_step. rewrite Hpc. reflexivity.
    + right. right. exists j, c, r. repeat split; try assumption.
      inversion Hstep as [| j' c' sy0 Hj' Ha H0 Hsy' |]; subst.
      cbn [callers] in *. rewrite Hj in Hj'. injection Hj' as <-.
      rewrite advance_mach. unfold Execute_step. cbn [mach]. rewrite Hpc.
      reflexivity.
Qed.

Lemma C9_Open_stays_Open_witness :
  let m := Fixtures.machine_in Open 3 in
  state (cb (Execute Fixtures.happyFunc m).2) = Open
  /\ recover Fixtures.no_elapse 1 Fixtures.happyFunc m = Some m.
Proof.
  pose proof (C9_Open_stays_Open Fixtures.no_elapse
                (Fixtures.machine_in Open 3) eq_refl)
    as (Hexec & _ & Hprobe & _ & _).
  split; [exact (Hexec Fixtures.happyFunc) | exact (Hprobe O Fixtures.happyFunc 0)].
Defined.

(** C9 as the specification words it fails when two probes are alive: the
    schedule [raceSchedule] leads from a new breaker to a machine whose
    state is [Open] and whose second probe stands at line 120 with a nil
    error; the next line of that probe sets the state to [Closed]. *)
Lemma C9_counterexample :
  ~ (forall m m' : @machine string nat,
       rtc (step Fixtures.no_elapse) (start "test" Fixtures.raceStrategy O) m ->
       state (cb m) = Open ->
       step Fixtures.no_elapse m m' ->
       state (cb m') = Open).
Proof.
  intros H.
  assert (rtc (step Fixtures.no_elapse) (start "test" Fixtures.raceStrategy O)
            Fixtures.raceMachine) as Hreach.
  { apply perform_all_steps with Fixtures.raceSchedule. reflexivity. }
  specialize (H Fixtures.raceMachine _ Hreach eq_refl
                (step_recover Fixtures.no_elapse 1
                   (mkGoroutine Fixtures.thirdFunc 0 (L120 None))
                   Fixtures.raceMachine eq_refl)).
  vm_compute in H. discriminate H.
Qed.

(** * Further properties of the code *)

(** ** Construction *)

(** X1.  The strategy of a new breaker has three positive fields, and it is
    a fixed point of the defaults: a breaker built from it has the same
    strategy. *)
Theorem X1_NewCircuitBreaker_normalises (nm nm' : string) (s : Strategy) :
  let s' := strategy (NewCircuitBreaker nm s) in
  0 < Threshold s' /\ 0 < RetryInterval s' /\ 0 < RetryMax s'
  /\ strategy (NewCircuitBreaker nm' s') = s'.
Proof.
  intros s'. subst s'. rewrite !NewCircuitBreaker_fields. simpl.
  repeat case_decide; repeat split; try lia;
    destruct s; simpl in *; f_equal; lia.
Qed.

(** ** The sleep of the probe *)

Lemma wrap_range z : GoInt.in_range (GoInt.wrap z).
Proof.
  unfold GoInt.in_range, GoInt.wrap, GoInt.min_int, GoInt.max_int.
  pose proof (Z.mod_pos_bound (z + 2 ^ 63) (2 ^ 64) ltac:(lia)). lia.
Qed.

(** X2.  Line 116 multiplies [time.Second] by [RetryInterval] in 64 bits.
    Up to 9223372036 seconds the probe sleeps that many seconds, and the
    world goes on for as long.  From 9223372037 to 18446744073 seconds the
    product is negative, and [time.Sleep] returns at once: the world is as
    it was. *)
Theorem X2_sleep_duration {V W : Type} (elapse : Z -> W -> W)
    (m : @machine V W) :
  let i := RetryInterval (strategy (cb m)) in
  (0 < i <= 9223372036 ->
   sleep_duration (cb m) = i * 1000000000
   /\ world (slept elapse m) = elapse (i * 1000000000) (world m))
  /\ (9223372037 <= i <= 18446744073 ->
      sleep_duration (cb m) < 0
      /\ world (slept elapse m) = world m).
Proof.
  intros i. subst i. split; intros Hi.
  - destruct (sleep_duration_seconds (cb m) Hi) as [Hd Hpos].
    unfold slept, time_Sleep. cbn [snd world].
    destruct (Z.leb_spec (sleep_duration (cb m)) 0); [lia |].
    rewrite Hd. unfold time_Second. rewrite Z.mul_comm. split; reflexivity.
  - assert (sleep_duration (cb m) < 0) as Hneg.
    { unfold sleep_duration, GoInt.mul, GoInt.wrap, time_Second.
      replace ((1000000000 * RetryInterval (strategy (cb m)) + 2 ^ 63) mod 2 ^ 64)
        with (1000000000 * RetryInterval (strategy (cb m)) + 2 ^ 63 - 2 ^ 64);
        [lia |].
      apply Z.mod_unique with 1; lia. }
    split; [exact Hneg |].
    unfold slept, time_Sleep. cbn [snd world].
    destruct (Z.leb_spec (sleep_duration (cb m)) 0); [reflexivity | lia].
Qed.

Lemma X2_sleep_duration_witness :
  sleep_duration (cb (Fixtures.machine_in HalfOpen 3)) = 1000000000.
Proof.
  refine (proj1 (proj1 (X2_sleep_duration Fixtures.no_elapse
                          (Fixtures.machine_in HalfOpen 3)) _)).
  split; [reflexivity | discriminate].
Defined.

(** ** [Execute], all states together *)

Lemma sleeps_app {V : Type} (t1 t2 : list (@event V)) :
  sleeps (t1 ++ t2) = (sleeps t1 + sleeps t2)%nat.
Proof.
  induction t1 as [|e t1 IH]; [reflexivity |].
  destruct e; simpl; rewrite IH; reflexivity.
Qed.

Lemma Execute_other_state {V W : Type} (f : @func V W) (m : @machine V W) :
  state (cb m) <> Closed ->
  state (cb m) <> HalfOpen ->
  state (cb m) <> Open ->
  Execute f m = call f m.
Proof.
  intros Hc Hh Ho. unfold_M.
  destruct (Z.eqb_spec (state (cb m)) Closed); [contradiction |].
  destruct (Z.eqb_spec (state (cb m)) HalfOpen); [contradiction |].
  destruct (Z.eqb_spec (state (cb m)) Open); [contradiction |].
  reflexivity.
Qed.

(** X3.  In state [Closed], when the invocation of [f] returns no error,
    [Execute f] sets the counter to 0, invokes [f] a second time, in the
    world the first invocation left, and returns what that second invocation
    returns.  The state stays [Closed] and no probe is started. *)
Theorem X3_Execute_Closed_success {V W : Type}
    (f : @func V W) (m : @machine V W) :
  state (cb m) = Closed ->
  fails f (world m) = false ->
  let r1 := f (world m) in
  let r2 := f r1.2 in
  Execute f m
  = (r2.1,
     mkMachine (mkCircuitBreaker (name (cb m)) (strategy (cb m)) Closed 0)
       r2.2 (trace m ++ [EvCall r1.1; EvCall r2.1]) (goroutines m)).
Proof.
  intros Hs Hok r1 r2. subst r1 r2. unfold fails in Hok.
  destruct (f (world m)) as [[res [e|]] w1] eqn:Hf1; [discriminate |].
  cbn [fst snd].
  destruct (f w1) as [r2 w2] eqn:Hf2.
  rewrite (Execute_Closed_success f m res w1 r2 w2 Hs Hf1 Hf2).
  unfold set_consecutiveErrors. rewrite Hs. reflexivity.
Qed.

Lemma X3_Execute_Closed_success_witness :
  Execute Fixtures.happyFunc (Fixtures.machine_in Closed 2)
  = ((Some "yay", None),
     mkMachine (mkCircuitBreaker "test" Fixtures.testStrategy Closed 0) 2%nat
       [EvCall (Some "yay", None); EvCall (Some "yay", None)] []).
Proof.
  exact (X3_Execute_Closed_success Fixtures.happyFunc
           (Fixtures.machine_in Closed 2) eq_refl eq_refl).
Defined.

(** X4.  [Execute] never touches the name or the strategy, and the only
    change of state it ever makes is from [Closed] to [HalfOpen].  It starts
    a probe when it makes that change and at no other time: one goroutine,
    for the operation of the call, at the first line of [recover] with
    [retries] 0. *)
Theorem X4_Execute_transitions {V W : Type}
    (f : @func V W) (m : @machine V W) :
  let m' := (Execute f m).2 in
  name (cb m') = name (cb m)
  /\ strategy (cb m') = strategy (cb m)
  /\ ((state (cb m) = Closed
       /\ state (cb m') = HalfOpen
       /\ goroutines m' = goroutines m ++ [mkGoroutine f 0 L109])
      \/ (state (cb m') = state (cb m)
          /\ goroutines m' = goroutines m)).
Proof.
  intros m'. subst m'.
  destruct (Z.eq_dec (state (cb m)) Closed) as [Hc | Hc].
  - destruct (f (world m)) as [[res [e|]] w1] eqn:Hf1.
    + rewrite (Execute_Closed_failure f m res e w1 Hc Hf1).
      cbn [snd cb goroutines after_error name strategy state].
      split; [reflexivity |]. split; [reflexivity |].
      case_decide; [left | right]; repeat split; assumption.
    + destruct (f w1) as [r2 w2] eqn:Hf2.
      rewrite (Execute_Closed_success f m res w1 r2 w2 Hc Hf1 Hf2).
      repeat split. right. split; reflexivity.
  - destruct (Z.eq_dec (state (cb m)) HalfOpen) as [Hh | Hh].
    { rewrite (Execute_HalfOpen f m Hh). repeat split. right. split; reflexivity. }
    destruct (Z.eq_dec (state (cb m)) Open) as [Ho | Ho].
    { rewrite (Execute_Open f m Ho). repeat split. right. split; reflexivity. }
    rewrite (Execute_other_state f m Hc Hh Ho). unfold call.
    destruct (f (world m)) as [r w]. repeat split. right. split; reflexivity.
Qed.

(** X5.  [Execute] never sleeps.  It invokes the operation twice in state
    [Closed] when the first invocation succeeds, once when it fails, and not
    at all in states [HalfOpen] and [Open] (once, by the [return f()] after
    the [switch], for a state that is none of the three). *)
Theorem X5_Execute_effects {V W : Type}
    (f : @func V W) (m : @machine V W) :
  let m' := (Execute f m).2 in
  sleeps (trace m') = sleeps (trace m)
  /\ calls (trace m')
     = (calls (trace m)
        + (if decide (state (cb m) = Closed)
           then (if fails f (world m) then 1 else 2)
           else if decide (state (cb m) = HalfOpen \/ state (cb m) = Open)
                then 0 else 1))%nat.
Proof.
  intros m'. subst m'. unfold fails.
  destruct (decide (state (cb m) = Closed)) as [Hc | Hc].
  - destruct (f (world m)) as [[res [e|]] w1] eqn:Hf1; cbn [fst snd].
    + rewrite (Execute_Closed_failure f m res e w1 Hc Hf1).
      cbn [snd trace]. rewrite sleeps_app, calls_app. simpl. lia.
    + destruct (f w1) as [r2 w2] eqn:Hf2.
      rewrite (Execute_Closed_success f m res w1 r2 w2 Hc Hf1 Hf2).
      cbn [snd trace]. rewrite sleeps_app, calls_app. simpl. lia.
  - destruct (decide (state (cb m) = HalfOpen \/ state (cb m) = Open))
      as [[Hh | Ho] | Hn].
    + rewrite (Execute_HalfOpen f m Hh). cbn [snd]. lia.
    + rewrite (Execute_Open f m Ho).
      cbn [snd trace]. rewrite sleeps_app, calls_app. simpl. lia.
    + rewrite (Execute_other_state f m Hc); [| tauto | tauto].
      unfold call. destruct (f (world m)) as [r w].
      cbn [snd trace]. rewrite sleeps_app, calls_app. simpl. lia.
Qed.

(** ** Whole runs of the probe *)

Section ProbeWhole.

Context {V W : Type} (elapse : Z -> W -> W).
Implicit Types (f : @func V W) (m : @machine V W).

Lemma probed_trace f m :
  trace (probed elapse f m)
  = trace m ++ [EvSleep (sleep_duration (cb m));
                EvCall (f (world (slept elapse m))).1].
Proof.
  unfold probed, call.
  destruct (f (world (slept elapse m))) as [[res [e|]] w2];
    cbn; rewrite <- app_assoc; reflexivity.
Qed.

Lemma probed_sleep_duration f m :
  sleep_duration (cb (probed elapse f m)) = sleep_duration (cb m).
Proof.
  destruct (probed_fields elapse f m) as (_ & Hst & _).
  unfold sleep_duration. rewrite Hst. reflexivity.
Qed.

(** What any finished run of the loop has done. *)
Lemma recover_loop_frame f : forall n retries m m',
  recover_loop elapse n f retries m = Some m' ->
  name (cb m') = name (cb m)
  /\ strategy (cb m') = strategy (cb m)
  /\ consecutiveErrors (cb m') = consecutiveErrors (cb m)
  /\ goroutines m' = goroutines m
  /\ state (cb m') <> HalfOpen
  /\ (state (cb m) <> HalfOpen -> m' = m)
  /\ exists rs, trace m' = trace m ++ probe_trace (sleep_duration (cb m)) rs.
Proof.
  induction n as [|n IH]; intros retries m m' Hrun; [discriminate |].
  destruct (Z.eq_dec (state (cb m)) HalfOpen) as [Hs | Hs].
  - destruct (Z.lt_ge_cases (RetryMax (strategy (cb m))) retries) as [Hgt | Hle].
    + rewrite recover_loop_exhausted in Hrun by (lia || exact Hs).
      injection Hrun as <-. cbn. repeat split; try discriminate.
      * intros Hn. contradiction.
      * exists []. cbn. rewrite app_nil_r. reflexivity.
    + rewrite recover_loop_turn in Hrun by assumption.
      destruct (IH _ _ _ Hrun) as (Hn & Hst & Hc & Hg & Hfin & _ & rs & Htr).
      destruct (probed_fields elapse f m) as (Hn1 & Hst1 & Hc1 & Hg1 & _ & _).
      repeat split; try congruence.
      exists ((f (world (slept elapse m))).1 :: rs).
      rewrite Htr, probed_trace, probed_sleep_duration, <- app_assoc.
      reflexivity.
  - rewrite recover_loop_not_HalfOpen in Hrun by exact Hs.
    injection Hrun as <-. repeat split; try assumption.
    exists []. cbn. rewrite app_nil_r. reflexivity.
Qed.

Lemma turns_cb_failures f : forall k m,
  (forall i, (i < k)%nat -> fails f (world (slept elapse (turns elapse i f m))) = true) ->
  cb (turns elapse k f m) = cb m
  /\ goroutines (turns elapse k f m) = goroutines m
  /\ calls (trace (turns elapse k f m)) = (calls (trace m) + k)%nat.
Proof.
  induction k as [|k IH]; intros m Hf.
  - cbn. repeat split. lia.
  - cbn [turns].
    pose proof (probed_cb_failure elapse f m (Hf O ltac:(lia))) as Hcb.
    destruct (probed_fields elapse f m) as (_ & _ & _ & Hg & Hcalls & _).
    destruct (IH (probed elapse f m)) as (Hcb' & Hg' & Hcalls').
    { intros i Hi. exact (Hf (S i) ltac:(lia)). }
    repeat split; [congruence | congruence | lia].
Qed.

(** The probe, [k] failing turns and then a turn that succeeds. *)
Lemma recover_loop_first_success f : forall k n retries m,
  state (cb m) = HalfOpen ->
  GoInt.min_int <= retries ->
  retries + Z.of_nat k <= RetryMax (strategy (cb m)) ->
  RetryMax (strategy (cb m)) <= GoInt.max_int ->
  (forall i, (i < k)%nat -> fails f (world (slept elapse (turns elapse i f m))) = true) ->
  fails f (world (slept elapse (turns elapse k f m))) = false ->
  recover_loop elapse (k + 2 + n) f retries m = Some (turns elapse (S k) f m).
Proof.
  induction k as [|k IH]; intros n retries m Hs Hlo Hr Hmax Hf Hok.
  - cbn [Nat.add turns] in *.
    rewrite recover_loop_turn by (lia || exact Hs).
    apply recover_loop_not_HalfOpen.
    destruct (probed_fields elapse f m) as (_ & _ & _ & _ & _ & Hstate).
    rewrite Hok in Hstate. rewrite Hstate. discriminate.
  - cbn [Nat.add].
    rewrite recover_loop_turn by (lia || exact Hs).
    rewrite incr_below_max by lia.
    pose proof (probed_cb_failure elapse f m (Hf O ltac:(lia))) as Hcb.
    change (turns elapse (S (S k)) f m)
      with (turns elapse (S k) f (probed elapse f m)).
    apply IH.
    + rewrite Hcb. exact Hs.
    + lia.
    + rewrite Hcb. lia.
    + rewrite Hcb. exact Hmax.
    + intros i Hi. exact (Hf (S i) ltac:(lia)).
    + exact Hok.
Qed.

(** The probe, as many failing turns as [retries] allows. *)
Lemma recover_loop_budget f : forall k n retries m,
  state (cb m) = HalfOpen ->
  GoInt.min_int <= retries ->
  retries + Z.of_nat k = RetryMax (strategy (cb m)) + 1 ->
  RetryMax (strategy (cb m)) < GoInt.max_int ->
  (forall i, (i < k)%nat -> fails f (world (slept elapse (turns elapse i f m))) = true) ->
  recover_loop elapse (k + 1 + n) f retries m
  = Some (mkMachine (set_state Open (cb m)) (world (turns elapse k f m))
            (trace (turns elapse k f m)) (goroutines m)).
Proof.
  induction k as [|k IH]; intros n retries m Hs Hlo Hr Hmax Hf.
  - cbn [Nat.add turns]. apply recover_loop_exhausted; [exact Hs | lia].
  - cbn [Nat.add].
    rewrite recover_loop_turn by (lia || exact Hs).
    rewrite incr_below_max by lia.
    pose proof (probed_cb_failure elapse f m (Hf O ltac:(lia))) as Hcb.
    destruct (probed_fields elapse f m) as (_ & _ & _ & Hg & _ & _).
    cbn [turns]. rewrite <- Hcb, <- Hg.
    apply IH.
    + rewrite Hcb. exact Hs.
    + lia.
    + rewrite Hcb. lia.
    + rewrite Hcb. exact Hmax.
    + intros i Hi. exact (Hf (S i) ltac:(lia)).
Qed.

(** With [RetryMax] the largest [int], [retries] is never above it. *)
Lemma recover_loop_forever f :
  always_fails f ->
  forall n retries m,
  state (cb m) = HalfOpen ->
  RetryMax (strategy (cb m)) = GoInt.max_int ->
  GoInt.in_range retries ->
  recover_loop elapse n f retries m = None.
Proof.
  intros Hf. induction n as [|n IH]; intros retries m Hs HR Hr; [reflexivity |].
  rewrite recover_loop_turn by (exact Hs || (rewrite HR; apply Hr)).
  pose proof (probed_cb_failure elapse f m (Hf _)) as Hcb.
  apply IH.
  - rewrite Hcb. exact Hs.
  - rewrite Hcb. exact HR.
  - apply wrap_range.
Qed.

End ProbeWhole.

Lemma turns_snoc {V W : Type} (elapse : Z -> W -> W) (f : @func V W) :
  forall k (m : @machine V W),
  turns elapse (S k) f m = probed elapse f (turns elapse k f m).
Proof.
  induction k as [|k IH]; intros m; [reflexivity |].
  change (turns elapse (S (S k)) f m)
    with (turns elapse (S k) f (probed elapse f m)).
  rewrite IH. reflexivity.
Qed.

(** X6.  Whenever [recover] returns, the state is no longer [HalfOpen]; the
    name, the strategy, the counter of consecutive errors and the pool of
    goroutines are as they were; and all it did to the world is a sequence
    of sleeps of the configured duration, each followed by one invocation
    of the operation.  Started in a state other than [HalfOpen], it does
    nothing at all. *)
Theorem X6_recover_frame {V W : Type} (elapse : Z -> W -> W)
    (fuel : nat) (f : @func V W) (m m' : @machine V W) :
  recover elapse fuel f m = Some m' ->
  name (cb m') = name (cb m)
  /\ strategy (cb m') = strategy (cb m)
  /\ consecutiveErrors (cb m') = consecutiveErrors (cb m)
  /\ goroutines m' = goroutines m
  /\ state (cb m') <> HalfOpen
  /\ (state (cb m) <> HalfOpen -> m' = m)
  /\ exists rs, trace m' = trace m ++ probe_trace (sleep_duration (cb m)) rs.
Proof. apply recover_loop_frame. Qed.

Lemma X6_recover_frame_witness :
  match recover Fixtures.no_elapse 7 Fixtures.errFunc
          (Fixtures.machine_in HalfOpen 3) with
  | Some m' => consecutiveErrors (cb m') = 3 /\ state (cb m') <> HalfOpen
  | None => False
  end.
Proof.
  destruct (recover Fixtures.no_elapse 7 Fixtures.errFunc
              (Fixtures.machine_in HalfOpen 3)) as [m'|] eqn:E.
  - pose proof (X6_recover_frame Fixtures.no_elapse 7 Fixtures.errFunc
                  (Fixtures.machine_in HalfOpen 3) m' E)
      as (_ & _ & Hc & _ & Hs & _).
    split; [exact Hc | exact Hs].
  - vm_compute in E. discriminate E.
Defined.

(** X7.  When the operation fails in the first [k] turns of the probe and
    returns no error in the next one, with [k] at most [RetryMax], the
    probe ends after that turn: the state is [Closed], the operation has
    been invoked [k + 1] times, and nothing else of the breaker has
    changed. *)
Theorem X7_probe_closes_at_first_success {V W : Type} (elapse : Z -> W -> W)
    (f : @func V W) (m : @machine V W) (k : nat) :
  state (cb m) = HalfOpen ->
  Z.of_nat k <= RetryMax (strategy (cb m)) <= GoInt.max_int ->
  (forall i, (i < k)%nat ->
     fails f (world (slept elapse (turns elapse i f m))) = true) ->
  fails f (world (slept elapse (turns elapse k f m))) = false ->
  let m' := turns elapse (S k) f m in
  (forall n, recover elapse (k + 2 + n) f m = Some m')
  /\ cb m' = set_state Closed (cb m)
  /\ goroutines m' = goroutines m
  /\ calls (trace m') = (calls (trace m) + k + 1)%nat.
Proof.
  intros Hs HR Hf Hok m'. subst m'.
  destruct (turns_cb_failures elapse f k m Hf) as (Hcb & Hg & Hcalls).
  destruct (probed_fields elapse f (turns elapse k f m))
    as (_ & _ & _ & Hg' & Hcalls' & _).
  split; [| split; [| split]].
  - intros n. apply recover_loop_first_success; try assumption;
      unfold GoInt.min_int; lia.
  - rewrite turns_snoc, (probed_cb_success elapse f _ Hok), Hcb. reflexivity.
  - rewrite turns_snoc. congruence.
  - rewrite turns_snoc. lia.
Qed.

Lemma X7_probe_closes_at_first_success_witness :
  let m := Fixtures.machine_in HalfOpen 3 in
  recover Fixtures.no_elapse 4 Fixtures.thirdFunc m
  = Some (turns Fixtures.no_elapse 3 Fixtures.thirdFunc m)
  /\ state (cb (turns Fixtures.no_elapse 3 Fixtures.thirdFunc m)) = Closed
  /\ calls (trace (turns Fixtures.no_elapse 3 Fixtures.thirdFunc m)) = 3%nat.
Proof.
  assert (forall i, (i < 2)%nat ->
            fails Fixtures.thirdFunc
              (world (slept Fixtures.no_elapse
                        (turns Fixtures.no_elapse i Fixtures.thirdFunc
                           (Fixtures.machine_in HalfOpen 3)))) = true) as Hf.
  { intros [|[|i]] Hi; [reflexivity | reflexivity | exfalso; lia]. }
  assert (fails Fixtures.thirdFunc
            (world (slept Fixtures.no_elapse
                      (turns Fixtures.no_elapse 2 Fixtures.thirdFunc
                         (Fixtures.machine_in HalfOpen 3)))) = false) as Hok
    by (vm_compute; reflexivity).
  assert (Z.of_nat 2 <= RetryMax (strategy (cb (Fixtures.machine_in HalfOpen 3)))
          <= GoInt.max_int) as HR by (split; discriminate).
  pose proof (X7_probe_closes_at_first_success Fixtures.no_elapse
                Fixtures.thirdFunc (Fixtures.machine_in HalfOpen 3) 2
                eq_refl HR Hf Hok) as (Hrun & Hcb & _ & Hcalls).
  split; [exact (Hrun O) |]. split; [| exact Hcalls].
  rewrite Hcb. reflexivity.
Defined.

(** X8.  When the operation fails in each of the first [RetryMax + 1] turns
    of the probe, the probe ends there: the state is [Open], the operation
    has been invoked [RetryMax + 1] times and is not invoked again, whatever
    it would have returned later. *)
Theorem X8_probe_opens_after_budget {V W : Type} (elapse : Z -> W -> W)
    (f : @func V W) (m : @machine V W) :
  state (cb m) = HalfOpen ->
  0 <= RetryMax (strategy (cb m)) < GoInt.max_int ->
  let k := Z.to_nat (RetryMax (strategy (cb m)) + 1) in
  (forall i, (i < k)%nat ->
     fails f (world (slept elapse (turns elapse i f m))) = true) ->
  (forall n,
     recover elapse (k + 1 + n) f m
     = Some (mkMachine (set_state Open (cb m)) (world (turns elapse k f m))
               (trace (turns elapse k f m)) (goroutines m)))
  /\ calls (trace (turns elapse k f m)) = (calls (trace m) + k)%nat.
Proof.
  intros Hs HR k Hf.
  destruct (turns_cb_failures elapse f k m Hf) as (_ & _ & Hcalls).
  split; [| exact Hcalls].
  intros n. apply recover_loop_budget; try assumption;
    unfold GoInt.min_int; lia.
Qed.

Lemma X8_probe_opens_after_budget_witness :
  let m := mkMachine (mkCircuitBreaker "test" Fixtures.raceStrategy HalfOpen 2)
             O [] [] in
  exists m',
    recover Fixtures.no_elapse 3 Fixtures.thirdFunc m = Some m'
    /\ state (cb m') = Open
    /\ calls (trace m') = 2%nat.
Proof.
  assert (forall i, (i < 2)%nat ->
            fails Fixtures.thirdFunc
              (world (slept Fixtures.no_elapse
                        (turns Fixtures.no_elapse i Fixtures.thirdFunc
                           (mkMachine
                              (mkCircuitBreaker "test" Fixtures.raceStrategy
                                 HalfOpen 2) O [] [])))) = true) as Hf.
  { intros [|[|i]] Hi; [reflexivity | reflexivity | exfalso; lia]. }
  assert (0 <= RetryMax Fixtures.raceStrategy < GoInt.max_int) as HR
    by (split; [discriminate | reflexivity]).
  pose proof (X8_probe_opens_after_budget Fixtures.no_elapse Fixtures.thirdFunc
                (mkMachine (mkCircuitBreaker "test" Fixtures.raceStrategy
                              HalfOpen 2) O [] [])
                eq_refl HR Hf)
    as (Hrun & Hcalls).
  eexists. split; [exact (Hrun O) |]. split; [reflexivity | exact Hcalls].
Defined.

(** X9.  With [RetryMax] the largest [int], [retries] is never above it:
    while the operation keeps failing the probe goes on for ever, turn after
    turn, and the breaker is never [Open]. *)
Theorem X9_probe_never_gives_up {V W : Type} (elapse : Z -> W -> W)
    (f : @func V W) (m : @machine V W) :
  always_fails f ->
  state (cb m) = HalfOpen ->
  RetryMax (strategy (cb m)) = GoInt.max_int ->
  (forall fuel, recover elapse fuel f m = None)
  /\ (forall k, cb (turns elapse k f m) = cb m
                /\ calls (trace (turns elapse k f m)) = (calls (trace m) + k)%nat).
Proof.
  intros Hf Hs HR. split.
  - intros fuel. apply recover_loop_forever; try assumption.
    unfold GoInt.in_range, GoInt.min_int, GoInt.max_int. lia.
  - intros k. destruct (turns_cb_failures elapse f k m) as (Hcb & _ & Hcalls).
    + intros i _. apply Hf.
    + split; assumption.
Qed.

Lemma X9_probe_never_gives_up_witness :
  recover Fixtures.no_elapse 50 Fixtures.errFunc
    (mkMachine (mkCircuitBreaker "test" Fixtures.foreverStrategy HalfOpen 3)
       O [] [])
  = None.
Proof.
  refine (proj1 (X9_probe_never_gives_up Fixtures.no_elapse Fixtures.errFunc
                   (mkMachine (mkCircuitBreaker "test" Fixtures.foreverStrategy
                                 HalfOpen 3) O [] [])
                   _ eq_refl eq_refl) 50%nat).
  intros w. reflexivity.
Defined.

(** ** Lives of a breaker *)

Section Lives.

Context {V W : Type}.
Implicit Types (f : @func V W) (m : @machine V W) (fs : list (@func V W)).

(** A call in state [Closed], whatever the operation does. *)
Lemma Execute_Closed_cb f m :
  state (cb m) = Closed ->
  cb (Execute f m).2
  = (if fails f (world m) then after_error (cb m)
     else set_consecutiveErrors 0 (cb m))
  /\ goroutines (Execute f m).2
     = (if fails f (world m) && bool_decide (GoInt.incr (consecutiveErrors (cb m))
                                             > Threshold (strategy (cb m)))
        then goroutines m ++ [mkGoroutine f 0 L109]
        else goroutines m)
  /\ calls (trace (Execute f m).2)
     = (calls (trace m) + (if fails f (world m) then 1 else 2))%nat.
Proof.
  intros Hs. unfold fails.
  destruct (f (world m)) as [[res [e|]] w1] eqn:Hf1; cbn [fst snd].
  - rewrite (Execute_Closed_failure f m res e w1 Hs Hf1).
    cbn [snd cb goroutines trace andb]. rewrite calls_app.
    split; [reflexivity |]. split; [| simpl; lia].
    case_decide; [rewrite bool_decide_true | rewrite bool_decide_false];
      auto.
  - destruct (f w1) as [r2 w2] eqn:Hf2.
    rewrite (Execute_Closed_success f m res w1 r2 w2 Hs Hf1 Hf2).
    cbn [snd cb goroutines trace andb]. rewrite calls_app.
    split; [reflexivity |]. split; [reflexivity | simpl; lia].
Qed.

Lemma failures_replicate f (n : nat) : forall m,
  always_fails f ->
  failures (replicate n f) m = replicate n true.
Proof.
  induction n as [|n IH]; intros m Hf; [reflexivity |].
  cbn [replicate failures]. rewrite (Hf (world m)), IH by exact Hf.
  reflexivity.
Qed.

(** Each call of a run of failures below the threshold invokes its
    operation once. *)
Lemma Execute_seq_failures_calls fs : forall m,
  state (cb m) = Closed ->
  failures fs m = replicate (length fs) true ->
  GoInt.min_int <= consecutiveErrors (cb m) ->
  consecutiveErrors (cb m) + Z.of_nat (length fs) <= Threshold (strategy (cb m)) ->
  Threshold (strategy (cb m)) <= GoInt.max_int ->
  calls (trace (Execute_seq fs m)) = (calls (trace m) + length fs)%nat.
Proof.
  induction fs as [|f fs IH]; intros m Hs Hfl Hlo Hhi HT.
  - simpl. lia.
  - simpl in Hfl. injection Hfl as Hf Hfl.
    cbn [length] in Hhi. rewrite Nat2Z.inj_succ in Hhi.
    destruct (Execute_failure_below f m Hs Hf ltac:(lia) HT) as [Hcb _].
    destruct (Execute_Closed_cb f m Hs) as (_ & _ & Hcalls).
    rewrite Hf in Hcalls.
    cbn [Execute_seq length]. rewrite IH.
    + lia.
    + rewrite Hcb. exact Hs.
    + exact Hfl.
    + rewrite Hcb. simpl. lia.
    + rewrite Hcb. simpl. lia.
    + rewrite Hcb. exact HT.
Qed.

(** Calls made to an open breaker. *)
Lemma Execute_seq_Open fs : forall m,
  state (cb m) = Open ->
  cb (Execute_seq fs m) = cb m
  /\ world (Execute_seq fs m) = world m
  /\ goroutines (Execute_seq fs m) = goroutines m
  /\ calls (trace (Execute_seq fs m)) = calls (trace m).
Proof.
  induction fs as [|f fs IH]; intros m Hs; [repeat split |].
  cbn [Execute_seq]. rewrite (Execute_Open f m Hs). cbn [snd].
  destruct (IH (mkMachine (cb m) (world m)
                  (trace m ++ [EvPrint ("ALERT: " +:+ name (cb m)
                                        +:+ " circuit breaker open")])
                  (goroutines m)) Hs) as (Hcb & Hw & Hg & Hc).
  cbn [cb world goroutines trace] in *.
  rewrite Hcb, Hw, Hg, Hc, calls_app. repeat split. simpl. lia.
Qed.

(** Calls made to a breaker whose threshold is the largest [int]. *)
Lemma Execute_seq_never_trips fs : forall m,
  state (cb m) = Closed ->
  Threshold (strategy (cb m)) = GoInt.max_int ->
  GoInt.in_range (consecutiveErrors (cb m)) ->
  state (cb (Execute_seq fs m)) = Closed
  /\ goroutines (Execute_seq fs m) = goroutines m.
Proof.
  induction fs as [|f fs IH]; intros m Hs HT Hc; [split; [exact Hs | reflexivity] |].
  cbn [Execute_seq].
  destruct (Execute_Closed_cb f m Hs) as (Hcb & Hgo & _).
  pose proof (wrap_range (consecutiveErrors (cb m) + 1)) as Hw.
  fold (GoInt.incr (consecutiveErrors (cb m))) in Hw.
  assert (~ GoInt.incr (consecutiveErrors (cb m)) > Threshold (strategy (cb m)))
    as Hle by (rewrite HT; unfold GoInt.in_range in Hw; lia).
  rewrite bool_decide_false, andb_false_r in Hgo by exact Hle.
  destruct (IH (Execute f m).2) as [Hs' Hgo'].
  - rewrite Hcb. destruct (fails f (world m)); [| exact Hs].
    unfold after_error. cbn [state]. case_decide; [contradiction | exact Hs].
  - rewrite Hcb. destruct (fails f (world m)); exact HT.
  - rewrite Hcb. destruct (fails f (world m)); cbn; [exact Hw |].
    unfold GoInt.in_range, GoInt.min_int, GoInt.max_int. lia.
  - split; [exact Hs' | congruence].
Qed.

End Lives.

(** X10.  A breaker whose threshold is the largest [int] never trips: the
    counter cannot be above it, so after any sequence of calls the state is
    [Closed] and no probe has been started. *)
Theorem X10_largest_threshold_never_trips {V W : Type}
    (nm : string) (s : Strategy) (fs : list (@func V W)) (w : W) :
  Threshold s = GoInt.max_int ->
  state (cb (Execute_seq fs (start nm s w))) = Closed
  /\ goroutines (Execute_seq fs (start nm s w)) = [].
Proof.
  intros HT. apply Execute_seq_never_trips.
  - reflexivity.
  - unfold start. cbn [cb]. rewrite NewCircuitBreaker_fields.
    cbn [strategy Threshold]. rewrite HT. reflexivity.
  - unfold GoInt.in_range, GoInt.min_int, GoInt.max_int. simpl. lia.
Qed.

Lemma X10_largest_threshold_never_trips_witness :
  state (cb (Execute_seq (replicate 9 Fixtures.errFunc)
               (start "test" Fixtures.neverStrategy O))) = Closed.
Proof.
  exact (proj1 (X10_largest_threshold_never_trips "test" Fixtures.neverStrategy
                  (replicate 9 Fixtures.errFunc) O eq_refl)).
Defined.



(** X12.  The whole way to [Open].  From a new breaker, an operation that
    fails whenever it is invoked trips the breaker at the call number
    [Threshold + 1]; the probe started then ends in state [Open]; by then
    the operation has been invoked [Threshold + 1 + RetryMax + 1] times,
    and it is never invoked again: every later call leaves the state [Open]
    and the world as it is, and returns the error "<name> circuit breaker
    open". *)
Theorem X12_failing_for_ever {V W : Type} (elapse : Z -> W -> W)
    (nm : string) (s : Strategy) (f : @func V W) (w : W) :
  let m0 := start nm s w in
  let T := Threshold (strategy (cb m0)) in
  let R := RetryMax (strategy (cb m0)) in
  always_fails f ->
  T < GoInt.max_int ->
  R < GoInt.max_int ->
  let m2 := Execute_seq (replicate (Z.to_nat (T + 1)) f) m0 in
  state (cb m2) = HalfOpen
  /\ goroutines m2 = [mkGoroutine f 0 L109]
  /\ exists m3,
       recover elapse (Z.to_nat (R + 2)) f m2 = Some m3
       /\ state (cb m3) = Open
       /\ Z.of_nat (calls (trace m3)) = (T + 1) + (R + 1)
       /\ forall gs,
            state (cb (Execute_seq gs m3)) = Open
            /\ world (Execute_seq gs m3) = world m3
            /\ calls (trace (Execute_seq gs m3)) = calls (trace m3)
            /\ forall g,
                 (Execute g (Execute_seq gs m3)).1
                 = (None, Some (CircuitOpenError nm)).
Proof.
  intros m0 T R Hf HT HR m2.
  destruct (NewCircuitBreaker_positive nm s) as (HTpos & _ & HRpos).
  change (0 < T) in HTpos. change (0 < R) in HRpos.
  set (m1 := Execute_seq (replicate (Z.to_nat T) f) m0).
  assert (m2 = (Execute f m1).2) as Hm2.
  { subst m2 m1. replace (Z.to_nat (T + 1)) with (S (Z.to_nat T)) by lia.
    rewrite replicate_S_end, Execute_seq_app. reflexivity. }
  assert (Hlen : length (replicate (Z.to_nat T) f) = Z.to_nat T)
    by apply length_replicate.
  assert (Hfl : failures (replicate (Z.to_nat T) f) m0
                = replicate (length (replicate (Z.to_nat T) f)) true).
  { rewrite Hlen. apply failures_replicate. exact Hf. }
  assert (Hmin : GoInt.min_int <= 0) by (unfold GoInt.min_int; lia).
  destruct (Execute_seq_failures (replicate (Z.to_nat T) f) m0) as [Hcb1 Hgo1];
    try (reflexivity || exact Hfl || exact Hmin).
  { rewrite Hlen. change (consecutiveErrors (cb m0)) with 0.
    change (Threshold (strategy (cb m0))) with T. lia. }
  { change (Threshold (strategy (cb m0))) with T. lia. }
  assert (calls (trace m1)
          = (calls (trace m0) + length (replicate (Z.to_nat T) f))%nat) as Hc1.
  { apply Execute_seq_failures_calls;
      try (reflexivity || exact Hfl || exact Hmin).
    - rewrite Hlen. change (consecutiveErrors (cb m0)) with 0.
      change (Threshold (strategy (cb m0))) with T. lia.
    - change (Threshold (strategy (cb m0))) with T. lia. }
  rewrite Hlen in Hcb1, Hc1. change (calls (trace m0)) with O in Hc1.
  fold m1 in Hcb1, Hgo1.
  assert (state (cb m1) = Closed) as Hs1 by (rewrite Hcb1; reflexivity).
  destruct (Execute_failure_at f m1 Hs1 (Hf _)) as (_ & Hcb2 & Hgo2).
  { rewrite Hcb1. cbn [consecutiveErrors set_consecutiveErrors strategy].
    change (consecutiveErrors (cb m0)) with 0.
    change (Threshold (strategy (cb m0))) with T. lia. }
  { rewrite Hcb1. cbn [strategy set_consecutiveErrors].
    change (Threshold (strategy (cb m0))) with T. unfold GoInt.min_int. lia. }
  destruct (Execute_Closed_cb f m1 Hs1) as (_ & _ & Hc2).
  rewrite (Hf (world m1)) in Hc2.
  rewrite <- Hm2 in Hcb2, Hgo2, Hc2.
  assert (state (cb m2) = HalfOpen) as Hs2 by (rewrite Hcb2; reflexivity).
  assert (RetryMax (strategy (cb m2)) = R) as HR2
    by (rewrite Hcb2, Hcb1; reflexivity).
  split; [exact Hs2 |]. split; [rewrite Hgo2, Hgo1; reflexivity |].
  destruct (recover_loop_always_fails elapse f R Hf (Z.to_nat (R + 2)) 0 m2)
    as (m3 & Hrun & Hcb3 & _ & Hc3); try (lia || exact HR2 || exact Hs2).
  exists m3. split; [exact Hrun |].
  assert (state (cb m3) = Open) as Hs3 by (rewrite Hcb3; reflexivity).
  split; [exact Hs3 |]. split; [lia |].
  intros gs. destruct (Execute_seq_Open gs m3 Hs3) as (Hcb4 & Hw4 & _ & Hc4).
  split; [rewrite Hcb4; exact Hs3 |]. split; [exact Hw4 |].
  split; [exact Hc4 |].
  intros g. rewrite (Execute_Open g (Execute_seq gs m3)) by (rewrite Hcb4; exact Hs3).
  cbn [fst]. rewrite Hcb4, Hcb3, Hcb2, Hcb1. reflexivity.
Qed.

Lemma X12_failing_for_ever_witness :
  let m2 := Execute_seq (replicate 3 Fixtures.errFunc)
              (start "test" Fixtures.testStrategy O) in
  state (cb m2) = HalfOpen
  /\ exists m3,
       recover Fixtures.no_elapse 7 Fixtures.errFunc m2 = Some m3
       /\ state (cb m3) = Open
       /\ Z.of_nat (calls (trace m3)) = 9.
Proof.
  assert (always_fails Fixtures.errFunc) as Hf by (intros w; reflexivity).
  assert (Threshold (strategy (cb (start (V := string) "test"
                                     Fixtures.testStrategy O)))
          < GoInt.max_int) as HT by reflexivity.
  assert (RetryMax (strategy (cb (start (V := string) "test"
                                    Fixtures.testStrategy O)))
          < GoInt.max_int) as HR by reflexivity.
  pose proof (X12_failing_for_ever Fixtures.no_elapse "test"
                Fixtures.testStrategy Fixtures.errFunc O Hf HT HR)
    as (Hs & _ & m3 & Hrun & Hs3 & Hcalls & _).
  split; [exact Hs |].
  exists m3. split; [exact Hrun |]. split; [exact Hs3 | exact Hcalls].
Defined.

(** ** What holds of every machine a program can reach *)

Section Reachable.

Context {V W : Type} (elapse : Z -> W -> W).
Implicit Types (f : @func V W) (m : @machine V W) (g : @goroutine V W).

(** A line of [recover] writes nothing but the state, and writes nothing
    there but [Open] and [Closed]. *)
Lemma recover_step_frame g m :
  name (cb (recover_step elapse g m).2) = name (cb m)
  /\ strategy (cb (recover_step elapse g m).2) = strategy (cb m)
  /\ consecutiveErrors (cb (recover_step elapse g m).2) = consecutiveErrors (cb m)
  /\ goroutines (recover_step elapse g m).2 = goroutines m
  /\ (state (cb (recover_step elapse g m).2) = state (cb m)
      \/ state (cb (recover_step elapse g m).2) = Open
      \/ state (cb (recover_step elapse g m).2) = Closed).
Proof.
  unfold recover_step.
  destruct (g_pc g) as [| | | | [e|] | |]; unfold_M; cbn;
    try (repeat split; left; reflexivity).
  - destruct (RetryMax (strategy (cb m)) <? g_retries g); cbn;
      repeat split; auto.
  - destruct (g_f g (world m)) as [r w]. cbn. repeat split. left. reflexivity.
  - repeat split. right. right. reflexivity.
Qed.

End Reachable.

(** ** [Open] for good *)

Section OpenForGood.

Context {V W : Type} (elapse : Z -> W -> W).
Implicit Types (f : @func V W) (m : @machine V W) (g : @goroutine V W).

Lemma recover_step_idle_Open g m :
  state (cb m) = Open ->
  idle g ->
  (recover_step elapse g m).2 = m /\ idle (recover_step elapse g m).1.
Proof.
  intros Hs [Hpc | Hpc]; unfold recover_step; rewrite Hpc; unfold_M.
  - rewrite Hs. cbn. split; [reflexivity | right; reflexivity].
  - cbn. split; [reflexivity | right; exact Hpc].
Qed.

End OpenForGood.

(** ** A probe that nothing interrupts *)

Section Alone.

Context {V W : Type} (elapse : Z -> W -> W).
Implicit Types (f : @func V W) (m : @machine V W) (g : @goroutine V W).

(** A line of [recover] neither reads nor writes the pool of goroutines. *)
Lemma recover_step_with gs g m :
  recover_step elapse g (with_goroutines gs m)
  = ((recover_step elapse g m).1,
     with_goroutines gs (recover_step elapse g m).2).
Proof.
  unfold recover_step, with_goroutines.
  destruct (g_pc g) as [| | | | [e|] | |]; unfold_M; cbn; try reflexivity.
  - destruct (RetryMax (strategy (cb m)) <? g_retries g); reflexivity.
  - destruct (g_f g (world m)) as [r w]. reflexivity.
Qed.

Lemma recover_steps_with gs : forall k g m,
  recover_steps elapse k g (with_goroutines gs m)
  = ((recover_steps elapse k g m).1,
     with_goroutines gs (recover_steps elapse k g m).2).
Proof.
  induction k as [|k IH]; intros g m; [reflexivity |].
  cbn [recover_steps]. rewrite recover_step_with.
  destruct (recover_step elapse g m) as [g1 m1]. cbn [fst snd]. apply IH.
Qed.

Lemma schedule_with i g m :
  schedule elapse i g m
  = with_goroutines (<[i:=(recover_step elapse g m).1]> (goroutines m))
      (recover_step elapse g m).2.
Proof.
  unfold schedule, with_goroutines.
  destruct (recover_step_frame elapse g m) as (_ & _ & _ & Hg & _).
  destruct (recover_step elapse g m) as [g1 m1]. cbn [fst snd] in *.
  rewrite Hg. reflexivity.
Qed.

(** Executing [k] lines of goroutine [i], and nothing else, is a run of the
    program. *)
Lemma steps_alone : forall k g m i,
  goroutines m !! i = Some g ->
  rtc (step elapse) m
    (with_goroutines (<[i:=(recover_steps elapse k g m).1]> (goroutines m))
       (recover_steps elapse k g m).2).
Proof.
  induction k as [|k IH]; intros g m i Hi.
  - cbn [recover_steps fst snd]. rewrite (list_insert_id _ _ _ Hi).
    destruct m. apply rtc_refl.
  - apply rtc_l with (schedule elapse i g m); [constructor; exact Hi |].
    rewrite schedule_with. cbn [recover_steps].
    destruct (recover_step elapse g m) as [g1 m1] eqn:Hstep. cbn [fst snd].
    pose proof (IH g1 (with_goroutines (<[i:=g1]> (goroutines m)) m1) i) as Hrun.
    cbn [with_goroutines goroutines] in Hrun.
    rewrite recover_steps_with in Hrun. cbn [fst snd] in Hrun.
    unfold with_goroutines in Hrun at 2. cbn [cb world trace] in Hrun.
    rewrite list_insert_insert_eq in Hrun.
    apply Hrun. apply list_lookup_insert_eq. apply lookup_lt_Some in Hi. exact Hi.
Qed.

End Alone.

(** X15.  The loop run at once is one of the runs of the program: when a
    probe stands at the first line of [recover] and the loop, run from
    there without interruption, ends in a machine, the program reaches that
    machine by executing lines of that probe only, and the probe has then
    returned. *)
Theorem X15_probe_alone {V W : Type} (elapse : Z -> W -> W)
    (n : nat) (f : @func V W) (retries : Z) (m m' : @machine V W) (i : nat) :
  goroutines m !! i = Some (mkGoroutine f retries L109) ->
  recover_loop elapse n f retries m = Some m' ->
  exists retries',
    rtc (step elapse) m
      (with_goroutines (<[i:=mkGoroutine f retries' Lend]> (goroutines m)) m').
Proof.
  intros Hi Hrun.
  destruct (recover_loop_steps elapse f n retries m m' Hrun)
    as (k & retries' & Hsteps).
  exists retries'.
  pose proof (steps_alone elapse k _ m i Hi) as Hrtc.
  rewrite Hsteps in Hrtc. exact Hrtc.
Qed.

Lemma X15_probe_alone_witness :
  let m := (Execute Fixtures.errFunc (Fixtures.machine_in Closed 2)).2 in
  exists m',
    rtc (step Fixtures.no_elapse) m m' /\ state (cb m') = Open.
Proof.
  intros m.
  assert (exists m1, recover_loop Fixtures.no_elapse 7 Fixtures.errFunc 0 m
                     = Some m1 /\ state (cb m1) = Open) as (m1 & Hrun & Hs).
  { eexists. split; [vm_compute; reflexivity | reflexivity]. }
  destruct (X15_probe_alone Fixtures.no_elapse 7 Fixtures.errFunc 0 m m1 O
              eq_refl Hrun) as (retries' & Hrtc).
  eexists. split; [exact Hrtc | exact Hs].
Defined.

(** ** A call that nothing interrupts *)

Section CallAlone.

Context {V W : Type} (elapse : Z -> W -> W).
Implicit Types (f : @func V W) (m : @machine V W) (c : @caller V W)
  (sy : @system V W).

Ltac caller_steps :=
  cbv [Execute_steps Execute_step mbind mret M_bind M_ret get_cb modify_cb
       call fmt_Printf go_recover at_line c_pc c_f fst snd
       set_consecutiveErrors set_state];
  cbn [cb world trace goroutines name strategy state consecutiveErrors].

(** The lines of a call, executed one after another with nothing in
    between, do what [Execute] does. *)
Lemma Execute_steps_alone f m :
  exists n,
    Execute_steps n (mkCaller f E76) m
    = (mkCaller f (Ereturn (Execute f m).1), (Execute f m).2).
Proof.
  destruct (Z.eq_dec (state (cb m)) Closed) as [Hc | Hc].
  - destruct (f (world m)) as [[res [e|]] w1] eqn:Hf1.
    + rewrite (Execute_Closed_failure f m res e w1 Hc Hf1). cbn [fst snd].
      unfold after_error.
      destruct (decide (GoInt.incr (consecutiveErrors (cb m))
                        > Threshold (strategy (cb m)))) as [Hd | Hd].
      * exists 8%nat. caller_steps. rewrite Hc. change (Closed =? Closed) with true.
        caller_steps. rewrite Hf1. caller_steps.
        destruct (Z.ltb_spec (Threshold (strategy (cb m)))
                    (GoInt.incr (consecutiveErrors (cb m)))); [| lia].
        caller_steps. reflexivity.
      * exists 6%nat. caller_steps. rewrite Hc. change (Closed =? Closed) with true.
        caller_steps. rewrite Hf1. caller_steps.
        destruct (Z.ltb_spec (Threshold (strategy (cb m)))
                    (GoInt.incr (consecutiveErrors (cb m)))); [lia |].
        caller_steps. rewrite Hc. reflexivity.
    + destruct (f w1) as [r2 w2] eqn:Hf2.
      rewrite (Execute_Closed_success f m res w1 r2 w2 Hc Hf1 Hf2). cbn [fst snd].
      exists 4%nat. caller_steps. rewrite Hc. change (Closed =? Closed) with true.
      caller_steps. rewrite Hf1. caller_steps. rewrite Hf2.
      rewrite <- app_assoc, ?Hc. reflexivity.
  - destruct (Z.eq_dec (state (cb m)) HalfOpen) as [Hh | Hh].
    { rewrite (Execute_HalfOpen f m Hh). cbn [fst snd].
      exists 2%nat. caller_steps. rewrite Hh. reflexivity. }
    destruct (Z.eq_dec (state (cb m)) Open) as [Ho | Ho].
    { rewrite (Execute_Open f m Ho). cbn [fst snd].
      exists 2%nat. caller_steps. rewrite Ho. reflexivity. }
    rewrite (Execute_other_state f m Hc Hh Ho).
    exists 2%nat. caller_steps.
    destruct (Z.eqb_spec (state (cb m)) Closed); [contradiction |].
    destruct (Z.eqb_spec (state (cb m)) HalfOpen); [contradiction |].
    destruct (Z.eqb_spec (state (cb m)) Open); [contradiction |].
    caller_steps. destruct (f (world m)) as [r w]. reflexivity.
Qed.

(** Executing [n] lines of call [j], and nothing else, is a run of the
    program. *)
Lemma caller_alone : forall n c sy j,
  callers sy !! j = Some c ->
  rtc (lines elapse) sy
    (mkSystem (Execute_steps n c (mach sy)).2
       (<[j:=(Execute_steps n c (mach sy)).1]> (callers sy))).
Proof.
  induction n as [|n IH]; intros c sy j Hj.
  - cbn [Execute_steps fst snd]. rewrite (list_insert_id _ _ _ Hj).
    destruct sy. apply rtc_refl.
  - apply rtc_l with (advance j c sy).
    { exists (Caller j). constructor. exact Hj. }
    cbn [Execute_steps].
    pose proof (IH (Execute_step c (mach sy)).1 (advance j c sy) j) as Hrun.
    rewrite advance_mach, advance_callers in Hrun.
    rewrite list_insert_insert_eq in Hrun.
    destruct (Execute_step c (mach sy)) as [c1 m1]. cbn [fst snd] in *.
    apply Hrun. apply list_lookup_insert_eq. apply lookup_lt_Some in Hj. exact Hj.
Qed.

(** The runs in which calls do not overlap are runs of the program. *)
Lemma step_lines m m' (cs : list (@caller V W)) :
  step elapse m m' ->
  exists cs', rtc (lines elapse) (mkSystem m cs) (mkSystem m' cs').
Proof.
  intros Hstep. destruct Hstep as [f m | i g m Hi].
  - destruct (Execute_steps_alone f m) as (n & Hn).
    eexists.
    apply rtc_l with (mkSystem m (cs ++ [mkCaller f E76])).
    { exists (Enter f). constructor. }
    pose proof (caller_alone n (mkCaller f E76)
                  (mkSystem m (cs ++ [mkCaller f E76])) (length cs)) as Hrun.
    cbn [mach callers] in Hrun. rewrite Hn in Hrun. cbn [fst snd] in Hrun.
    apply Hrun. rewrite lookup_app_r by lia.
    replace (length cs - length cs)%nat with O by lia. reflexivity.
  - exists cs. apply rtc_once. exists (Recover i).
    exact (line_Recover elapse i g (mkSystem m cs) Hi).
Qed.

Lemma steps_lines m m' :
  rtc (step elapse) m m' ->
  forall cs, exists cs', rtc (lines elapse) (mkSystem m cs) (mkSystem m' cs').
Proof.
  intros Hrtc. induction Hrtc as [m | m m1 m2 Hstep _ IH]; intros cs.
  - exists cs. apply rtc_refl.
  - destruct (step_lines m m1 cs Hstep) as (cs1 & H1).
    destruct (IH cs1) as (cs2 & H2).
    exists cs2. eapply rtc_trans; eassumption.
Qed.

Lemma play_lines (l : list (@who V W)) : forall sy sy',
  play elapse l sy = Some sy' ->
  rtc (lines elapse) sy sy'.
Proof.
  induction l as [|a l IH]; intros sy sy' Hrun.
  - injection Hrun as <-. apply rtc_refl.
  - cbn [play] in Hrun.
    destruct (play1 elapse a sy) as [sy1|] eqn:Ha; [| discriminate].
    cbn in Hrun. apply rtc_l with sy1; [| apply IH; exact Hrun].
    exists a. destruct a as [f | j | i]; cbn in Ha.
    + injection Ha as <-. constructor.
    + destruct (callers sy !! j) as [c|] eqn:Hj; [| discriminate].
      cbn in Ha. injection Ha as <-. constructor. exact Hj.
    + destruct (goroutines (mach sy) !! i) as [g|] eqn:Hg; [| discriminate].
      cbn in Ha. injection Ha as <-. constructor. exact Hg.
Qed.

End CallAlone.

(** Calls that overlap leave the breaker [HalfOpen] with its counter at 0
    and, for a while, with no probe started: the call that set [HalfOpen]
    stands at line 103. *)
Example overlapping_calls :
  exists sy,
    play Fixtures.no_elapse Fixtures.overlapSchedule
      (mkSystem (start "test" Fixtures.raceStrategy O) []) = Some sy
    /\ state (cb (mach sy)) = HalfOpen
    /\ consecutiveErrors (cb (mach sy)) = 0
    /\ goroutines (mach sy) = []
    /\ callers sy !! 1%nat
       = Some (mkCaller Fixtures.errFunc
                 (E103 (None, Some (errors_New "i like to fail")))).
Proof.
  eexists. split; [vm_compute; reflexivity |]. repeat split.
Qed.

(** ** The bounds of the probe *)

(** C6 as the specification words it, for every strategy, fails at both
    ends of the [int] range.  With [RetryMax] the largest [int], which
    [NewCircuitBreaker] keeps, an operation that always fails is probed for
    ever and the state never becomes [Open].  With [RetryInterval]
    9223372037 the sleep of the code is not the one of the specification's
    loop. *)
Lemma C6_counterexample :
  ~ (forall (s : Strategy) (f : @func string nat) (m : @machine string nat),
       strategy (cb m) = strategy (NewCircuitBreaker "test" s) ->
       state (cb m) = HalfOpen ->
       always_fails f ->
       exists fuel m',
         recover Fixtures.no_elapse fuel f m = Some m'
         /\ state (cb m') = Open
         /\ Z.of_nat (calls (trace m'))
            = Z.of_nat (calls (trace m)) + (RetryMax (strategy (cb m)) + 1))
  /\ ~ (forall (s : Strategy) (f : @func string nat) (m : @machine string nat)
               (n : nat),
          strategy (cb m) = strategy (NewCircuitBreaker "test" s) ->
          state (cb m) = HalfOpen ->
          recover Fixtures.no_elapse n f m = spec_probe Fixtures.no_elapse n f m).
Proof.
  split; intros H.
  - destruct (H Fixtures.foreverStrategy Fixtures.errFunc
                (mkMachine (mkCircuitBreaker "test" Fixtures.foreverStrategy
                              HalfOpen 3) O [] [])
                eq_refl eq_refl (fun w => eq_refl))
      as (fuel & m' & Hrun & _).
    unfold recover in Hrun.
    rewrite recover_loop_forever in Hrun; try reflexivity; [discriminate | |].
    + intros w. reflexivity.
    + unfold GoInt.in_range, GoInt.min_int, GoInt.max_int. lia.
  - specialize (H Fixtures.longSleepStrategy Fixtures.errFunc
                  (mkMachine (mkCircuitBreaker "test" Fixtures.longSleepStrategy
                                HalfOpen 3) O [] [])
                  7%nat eq_refl eq_refl).
    vm_compute in H. discriminate H.
Qed.

(** ** What holds of every system a program can reach *)

Section ReachableLines.

Context {V W : Type} (elapse : Z -> W -> W).
Implicit Types (f : @func V W) (m : @machine V W) (c : @caller V W)
  (g : @goroutine V W) (sy : @system V W).

Lemma start_lines_invariant (nm : string) (s : Strategy) (w : W) :
  lines_invariant nm s (mkSystem (start (V := V) nm s w) []).
Proof.
  unfold lines_invariant, start. cbn [mach cb goroutines].
  split; [reflexivity |]. split; [reflexivity |].
  split; [left; reflexivity |].
  split; [unfold GoInt.in_range, GoInt.min_int, GoInt.max_int; simpl; lia |].
  intros H. exfalso. apply H. reflexivity.
Qed.

Lemma line_invariant (nm : string) (s : Strategy) sy sy' :
  lines_invariant nm s sy ->
  lines elapse sy sy' ->
  lines_invariant nm s sy'.
Proof.
  intros Hinv (a & Hstep). pose proof Hinv as (Hn & Hst & Hv & Hc & Hg).
  destruct Hstep as [f sy | j c sy Hj | i g sy Hi].
  - unfold lines_invariant. cbn [mach callers].
    repeat (split; [assumption |]).
    intros Hne. destruct (Hg Hne) as [Hgo | (j & c & r & Hj & Hpc)];
      [left; exact Hgo |].
    right. exists j, c, r. split; [| exact Hpc].
    rewrite lookup_app_l; [exact Hj |]. apply lookup_lt_Some in Hj. exact Hj.
  - unfold lines_invariant. rewrite advance_mach, advance_callers.
    destruct (Execute_step_frame c (mach sy))
      as (Hn' & Hst' & Hs' & Hc' & Hg').
    rewrite Hn', Hst'.
    split; [exact Hn |]. split; [exact Hst |].
    split; [| split].
    + destruct Hs' as [-> | (r & _ & ->)]; [exact Hv |].
      right. left. reflexivity.
    + destruct Hc' as [-> | [(r & v & _ & ->) | (_ & ->)]];
        [exact Hc | apply wrap_range |].
      unfold GoInt.in_range, GoInt.min_int, GoInt.max_int. lia.
    + intros Hne.
      destruct Hg' as [Hgo | (r & Hpc & Hgo)].
      * destruct Hs' as [Hs' | (r & Hpc & Hs')].
        -- rewrite Hs' in Hne. rewrite Hgo.
           destruct (Hg Hne) as [Hnil | (j' & c' & r' & Hj' & Hpc')];
             [left; exact Hnil |].
           destruct (decide (j' = j)) as [-> | Hjj].
           ++ rewrite Hj in Hj'. injection Hj' as <-.
              exfalso. clear - Hpc' Hgo.
              unfold Execute_step in Hgo. rewrite Hpc' in Hgo.
              cbv [mbind mret M_bind M_ret go_recover snd] in Hgo.
              cbn [goroutines] in Hgo.
              apply (f_equal length) in Hgo. rewrite length_app in Hgo.
              cbn in Hgo. lia.
           ++ right. exists j', c', r'. split; [| exact Hpc'].
              rewrite list_lookup_insert_ne by congruence. exact Hj'.
        -- right. exists j, (Execute_step c (mach sy)).1, r.
           split; [apply list_lookup_insert_eq;
                   apply lookup_lt_Some in Hj; exact Hj |].
           unfold Execute_step. rewrite Hpc. reflexivity.
      * left. rewrite Hgo. intros Hnil.
        apply app_eq_nil in Hnil as [_ Hnil]. discriminate.
  - destruct (recover_step_frame elapse g (mach sy))
      as (Hn' & Hst' & Hc' & Hg' & Hs').
    unfold lines_invariant. cbn [mach callers]. rewrite schedule_cb.
    rewrite Hn', Hst', Hc'.
    split; [exact Hn |]. split; [exact Hst |].
    split; [| split; [exact Hc |]].
    + destruct Hs' as [-> | [-> | ->]];
        [exact Hv | right; right; reflexivity | left; reflexivity].
    + intros _. left. intros Hnil. unfold schedule in Hnil.
      destruct (recover_step elapse g (mach sy)) as [g' m1]. cbn in Hnil, Hg'.
      apply (f_equal length) in Hnil. rewrite length_insert, Hg' in Hnil.
      apply lookup_lt_Some in Hi. cbn in Hnil. lia.
Qed.

Lemma lines_invariant_rtc (nm : string) (s : Strategy) sy sy' :
  rtc (lines elapse) sy sy' ->
  lines_invariant nm s sy ->
  lines_invariant nm s sy'.
Proof.
  intros Hrtc. induction Hrtc as [sy | sy sy1 sy2 Hstep _ IH]; intros H0;
    [exact H0 |].
  apply IH. exact (line_invariant nm s sy sy1 H0 Hstep).
Qed.

(** A call that is not in the branch for [Closed] does nothing to an open
    breaker, and stays out of that branch. *)
Lemma Execute_step_quiet_Open c m :
  state (cb m) = Open ->
  quiet c ->
  cb (Execute_step c m).2 = cb m
  /\ goroutines (Execute_step c m).2 = goroutines m
  /\ quiet (Execute_step c m).1.
Proof.
  intros Hs Hq. unfold quiet in Hq. unfold Execute_step.
  destruct (c_pc c) as [| |r|r v|r|r|r|r| | | | |r] eqn:Hpc;
    try contradiction; unfold_M; cbn.
  - rewrite Hs. cbn. unfold quiet. cbn. auto.
  - unfold quiet. cbn. auto.
  - unfold quiet. cbn. auto.
  - unfold quiet. rewrite Hpc. auto.
Qed.

Lemma line_Open_rest sy sy' :
  state (cb (mach sy)) = Open ->
  Forall idle (goroutines (mach sy)) ->
  Forall quiet (callers sy) ->
  lines elapse sy sy' ->
  state (cb (mach sy')) = Open
  /\ Forall idle (goroutines (mach sy'))
  /\ Forall quiet (callers sy').
Proof.
  intros Hs Hidle Hquiet (a & Hstep).
  destruct Hstep as [f sy | j c sy Hj | i g sy Hi].
  - cbn [mach callers]. split; [exact Hs |]. split; [exact Hidle |].
    apply Forall_app. split; [exact Hquiet |].
    apply Forall_cons. split; [exact I | apply Forall_nil; exact I].
  - assert (quiet c) as Hq by exact (proj1 (Forall_lookup _ _) Hquiet j c Hj).
    destruct (Execute_step_quiet_Open c (mach sy) Hs Hq) as (Hcb & Hgo & Hq').
    rewrite advance_mach, advance_callers, Hcb, Hgo.
    split; [exact Hs |]. split; [exact Hidle |].
    apply Forall_insert; assumption.
  - assert (idle g) as Hg by exact (proj1 (Forall_lookup _ _) Hidle i g Hi).
    destruct (recover_step_idle_Open elapse g (mach sy) Hs Hg) as [Hm Hg'].
    cbn [mach callers]. unfold schedule.
    destruct (recover_step elapse g (mach sy)) as [g' m1].
    cbn [fst snd] in Hm, Hg'. subst m1. cbn [cb goroutines].
    split; [exact Hs |]. split; [| exact Hquiet].
    apply Forall_insert; assumption.
Qed.

End ReachableLines.

(** X13.  However calls of [Execute] overlap with one another and with the
    probes, line by line, every system reached from a new breaker has: the
    name it was given; the strategy it was built with, the defaults in
    place of what was not positive; as state one of [Closed], [HalfOpen]
    and [Open]; a counter that is an [int]; and, whenever the state is not
    [Closed], a probe that has been started, or a call that stands at line
    103 and is about to start one. *)
Theorem X13_reachable_invariant {V W : Type} (elapse : Z -> W -> W)
    (nm : string) (s : Strategy) (w : W) (sy : @system V W) :
  rtc (lines elapse) (mkSystem (start nm s w) []) sy ->
  GetName (cb (mach sy)) = nm
  /\ strategy (cb (mach sy)) = strategy (NewCircuitBreaker nm s)
  /\ (0 < Threshold (strategy (cb (mach sy)))
      /\ 0 < RetryInterval (strategy (cb (mach sy)))
      /\ 0 < RetryMax (strategy (cb (mach sy))))
  /\ (GetState (cb (mach sy)) = Closed
      \/ GetState (cb (mach sy)) = HalfOpen
      \/ GetState (cb (mach sy)) = Open)
  /\ GoInt.in_range (consecutiveErrors (cb (mach sy)))
  /\ (GetState (cb (mach sy)) <> Closed ->
      goroutines (mach sy) <> []
      \/ exists j c r, callers sy !! j = Some c /\ c_pc c = E103 r).
Proof.
  intros Hrtc.
  assert (lines_invariant nm s sy) as (Hn & Hst & Hv & Hc & Hg).
  { apply (lines_invariant_rtc elapse nm s _ sy Hrtc).
    apply start_lines_invariant. }
  unfold GetName, GetState.
  split; [exact Hn |]. split; [exact Hst |].
  split; [rewrite Hst; apply NewCircuitBreaker_positive |].
  split; [exact Hv |]. split; [exact Hc | exact Hg].
Qed.

Lemma X13_reachable_invariant_witness :
  match play Fixtures.no_elapse Fixtures.overlapSchedule
          (mkSystem (start "test" Fixtures.raceStrategy O) []) with
  | Some sy =>
    GetName (cb (mach sy)) = "test"
    /\ GetState (cb (mach sy)) = HalfOpen
    /\ (goroutines (mach sy) <> []
        \/ exists j c r, callers sy !! j = Some c /\ c_pc c = E103 r)
  | None => False
  end.
Proof.
  pose proof (play_lines Fixtures.no_elapse Fixtures.overlapSchedule
                (mkSystem (start "test" Fixtures.raceStrategy O) []))
    as Hreach.
  destruct (play Fixtures.no_elapse Fixtures.overlapSchedule
              (mkSystem (start "test" Fixtures.raceStrategy O) []))
    as [sy|] eqn:E; [| vm_compute in E; discriminate E].
  pose proof (X13_reachable_invariant Fixtures.no_elapse "test"
                Fixtures.raceStrategy O sy (Hreach sy eq_refl))
    as (Hn & _ & _ & _ & _ & Hg).
  assert (GetState (cb (mach sy)) = HalfOpen) as Hs.
  { vm_compute in E. injection E as <-. reflexivity. }
  split; [exact Hn |]. split; [exact Hs |].
  apply Hg. rewrite Hs. discriminate.
Defined.

(** X14.  Once the state is [Open], no probe is in the middle of a turn
    (each is about to read the state or has returned) and no call is in
    progress in the branch of [Execute] for state [Closed], the state is
    [Open] for good: however calls, new calls included, and lines of probes
    interleave from there, no system reached has another state, no probe
    leaves its rest and no call enters that branch. *)
Theorem X14_Open_for_good {V W : Type} (elapse : Z -> W -> W)
    (sy sy' : @system V W) :
  state (cb (mach sy)) = Open ->
  Forall idle (goroutines (mach sy)) ->
  Forall quiet (callers sy) ->
  rtc (lines elapse) sy sy' ->
  state (cb (mach sy')) = Open
  /\ Forall idle (goroutines (mach sy'))
  /\ Forall quiet (callers sy').
Proof.
  intros Hs Hidle Hquiet Hrtc.
  induction Hrtc as [sy | sy sy1 sy2 Hstep _ IH];
    [split; [| split]; assumption |].
  destruct (line_Open_rest elapse sy sy1 Hs Hidle Hquiet Hstep)
    as (Hs1 & Hidle1 & Hquiet1).
  apply IH; assumption.
Qed.

Lemma X14_Open_for_good_witness :
  match play Fixtures.no_elapse Fixtures.restingSchedule
          Fixtures.restingSystem with
  | Some sy' => state (cb (mach sy')) = Open
  | None => False
  end.
Proof.
  pose proof (play_lines Fixtures.no_elapse Fixtures.restingSchedule
                Fixtures.restingSystem) as Hreach.
  destruct (play Fixtures.no_elapse Fixtures.restingSchedule
              Fixtures.restingSystem) as [sy'|] eqn:E;
    [| vm_compute in E; discriminate E].
  refine (proj1 (X14_Open_for_good Fixtures.no_elapse Fixtures.restingSystem
                   sy' eq_refl _ _ (Hreach sy' eq_refl))).
  - apply Forall_cons. split; [left; reflexivity | apply Forall_nil; exact I].
  - apply Forall_cons. split; [exact I | apply Forall_nil; exact I].
Defined.
